(** * The majority finality provider of checkpointz (pkg/beacon/majority.go)

    A shallow embedding of the [Majority] provider: the periodic finality
    check, the gate on the serving checkpoint, the genesis check, the
    historical back-fill and the read-side accessors.  A method with receiver
    [m *Majority] becomes a computation over the provider's fields that
    returns normally, returns a Go [error], or panics on a nil dereference;
    the fields keep what was assigned before an error is returned, as in Go. *)

From Stdlib Require Import ZArith List String Bool Lia DecimalString.
Import ListNotations.
Local Open Scope string_scope.
Local Open Scope list_scope.
Local Open Scope Z_scope.

(** ** Values *)

(** A Go [error], by its message. *)
Definition error := string.

(** A Go result pair [(v, err)]: [Err] when [err != nil]. *)
Inductive result (A : Type) : Type :=
| Ok (a : A)
| Err (e : error).
Arguments Ok {A} a.
Arguments Err {A} e.

(** [uint64] arithmetic wraps around. *)
Definition wrap64 (z : Z) : Z := z mod 2 ^ 64.

(** [fmt.Sprintf("%d", n)] and [fmt.Sprintf("%v", slot)] on an unsigned number. *)
Definition decimal (z : Z) : string := NilZero.string_of_int (Z.to_int z).

(** [phase0.Checkpoint]; a [phase0.Root] is 32 opaque bytes, read here as the
    unsigned number they spell, a [phase0.Epoch] is a [uint64]. *)
Record Checkpoint : Type := { Epoch : Z; Root : Z }.

(** [v1.Finality]: both fields are pointers and may be nil. *)
Record Finality : Type := {
  Finalized : option Checkpoint;
  Justified : option Checkpoint }.

(** [spec.VersionedSignedBeaconBlock] of go-eth2-client, by the three methods
    the provider calls; each returns a value or an error. *)
Record Block : Type := {
  block_Slot : result Z;
  block_Root : result Z;
  block_StateRoot : result Z }.

(** A beacon state is a blob of bytes ([*[]byte]). *)
Definition BeaconState := list Byte.byte.

(** ** The stores (pkg/beacon/store) *)

Module Store.

(** Modelled from the spec: the block store of pkg/beacon/store is not part of
    the sources.  Section 3 gives a cache entry as key, value, expiry and
    insertion time; section 4.B indexes a block by its root, its slot and its
    state root, answers null for an absent artifact and drops an entry once
    its expiry has passed.  Eviction under capacity pressure is left out. *)
Record BlockEntry : Type := {
  be_root : Z;
  be_slot : Z;
  be_state_root : Z;
  be_block : Block;
  be_expires_at : Z;
  be_inserted_at : Z }.

Definition BlockStore := list BlockEntry.

(** Modelled from the spec: an entry is live until its expiry, and a lookup
    answers the first live entry under the key, null when there is none. *)
Definition live_block (now : Z) (e : BlockEntry) : bool := now <? be_expires_at e.

Definition find_block (p : BlockEntry -> bool) (now : Z) (s : BlockStore)
  : result (option Block) :=
  Ok (option_map be_block (find (fun e => live_block now e && p e) s)).

Definition GetByRoot (s : BlockStore) (now root : Z) : result (option Block) :=
  find_block (fun e => be_root e =? root) now s.

Definition GetBySlot (s : BlockStore) (now slot : Z) : result (option Block) :=
  find_block (fun e => be_slot e =? slot) now s.

Definition GetByStateRoot (s : BlockStore) (now sr : Z) : result (option Block) :=
  find_block (fun e => be_state_root e =? sr) now s.

(** Modelled from the spec: [Add(block, expiresAt)] of the absent store.  The
    three identifiers are read off the block; a block that cannot give one of
    them is a structural error.  A new entry replaces the entry of the same
    root. *)
Definition Add (s : BlockStore) (now : Z) (b : Block) (expires_at : Z)
  : result BlockStore :=
  match block_Root b, block_Slot b, block_StateRoot b with
  | Ok r, Ok sl, Ok sr =>
      Ok ({| be_root := r; be_slot := sl; be_state_root := sr; be_block := b;
             be_expires_at := expires_at; be_inserted_at := now |}
            :: filter (fun e => negb (be_root e =? r)) s)
  | Err e, _, _ => Err e
  | _, Err e, _ => Err e
  | _, _, Err e => Err e
  end.

(** Modelled from the spec: the state store, keyed by state root only. *)
Record StateEntry : Type := {
  se_state_root : Z;
  se_state : BeaconState;
  se_expires_at : Z;
  se_inserted_at : Z }.

Definition BeaconStateStore := list StateEntry.

(** Modelled from the spec: the lookup and the insertion of the state store,
    as for blocks. *)
Definition live_state (now : Z) (e : StateEntry) : bool := now <? se_expires_at e.

Definition StateGetByStateRoot (s : BeaconStateStore) (now sr : Z)
  : result (option BeaconState) :=
  Ok (option_map se_state
        (find (fun e => live_state now e && (se_state_root e =? sr)) s)).

Definition StateAdd (s : BeaconStateStore) (now sr : Z) (st : BeaconState)
  (expires_at : Z) : BeaconStateStore :=
  {| se_state_root := sr; se_state := st; se_expires_at := expires_at;
     se_inserted_at := now |}
    :: filter (fun e => negb (se_state_root e =? sr)) s.

End Store.

(** ** The upstream pool (pkg/beacon/node and the Nodes list) *)

(** What [GetSpec] and [GetGenesis] report, as far as the provider reads it. *)
Record Spec : Type := { SlotsPerEpoch : Z; SecondsPerSlot : Z }.
Record Genesis : Type := { GenesisTime : Z }.

(** Modelled from the spec: the node client of section 4.A and 6, by the
    answers it gives to the calls the provider makes. *)
Record BeaconClient : Type := {
  GetFinality : result (option Finality);
  GetSpec : result Spec;
  GetGenesis : result Genesis;
  FetchBlock : string -> result (option Block) }.

(** Modelled from the spec: an upstream node is a name, a client and a status;
    ready is healthy and not syncing, and a data provider is flagged so. *)
Record Node : Type := {
  Name : string;
  Healthy : bool;
  Syncing : bool;
  DataProvider : bool;
  Beacon : BeaconClient }.

Definition Nodes := list Node.

(** Modelled from the spec: the filters and the random choice of the pool
    (section 4.A); [pick] is the number the random source draws, and an empty
    pool has no node to give. *)
Definition Ready (ns : Nodes) : Nodes :=
  filter (fun n => Healthy n && negb (Syncing n)) ns.

Definition DataProviders (ns : Nodes) : Nodes := filter DataProvider ns.

Definition RandomNode (ns : Nodes) (pick : nat) : result Node :=
  match nth_error ns (Nat.modulo pick (List.length ns)) with
  | Some n => Ok n
  | None => Err "no nodes available"%string
  end.

(** ** The bundle downloader *)

(** Modelled from the spec: section 4.C, a queue keyed by block root whose
    [AddToQueue] is a no-op for a root already queued and fails when the queue
    is saturated. *)
Record BundleDownloader : Type := { queue : list Z; queue_limit : nat }.

(** Modelled from the spec: [ExistsInQueue] and [AddToQueue] of section 4.C. *)
Definition ExistsInQueue (d : BundleDownloader) (root : Z) : bool :=
  existsb (Z.eqb root) (queue d).

Definition AddToQueue (d : BundleDownloader) (root : Z) : result BundleDownloader :=
  if ExistsInQueue d root then Ok d
  else if (List.length (queue d) <? queue_limit d)%nat
       then Ok {| queue := queue d ++ [root]; queue_limit := queue_limit d |}
       else Err "queue saturated"%string.

(** ** The provider and its effects *)

(** What a call asks of an upstream node. *)
Inductive Request : Type :=
| ReqFinality
| ReqSpec
| ReqGenesis
| ReqBlock (id : string).

(** What the provider does to its collaborators, in the order it does it:
    reads of the two stores, calls to upstream nodes, events emitted on the
    broker and observations handed to the metrics. *)
Inductive Effect : Type :=
| ReadBlockByRoot (root : Z)
| ReadBlockBySlot (slot : Z)
| ReadBlockByStateRoot (sr : Z)
| ReadState (sr : Z)
| Upstream (node : string) (req : Request)
| Emit (topic : string) (checkpoint : option Finality)
| ObserveServingEpoch (epoch : Z).

(** [type Majority struct]: [head] and [currentBundle] are pointers.  [clock]
    is the wall clock the stores read and [trace] the effects so far. *)
Record Majority : Type := {
  nodes : Nodes;
  head : option Finality;
  currentBundle : option Finality;
  blocks : Store.BlockStore;
  states : Store.BeaconStateStore;
  bundleDownloader : BundleDownloader;
  clock : Z;
  trace : list Effect }.

Definition set_head (h : option Finality) (m : Majority) : Majority :=
  {| nodes := nodes m; head := h; currentBundle := currentBundle m;
     blocks := blocks m; states := states m;
     bundleDownloader := bundleDownloader m; clock := clock m; trace := trace m |}.

Definition set_currentBundle (c : option Finality) (m : Majority) : Majority :=
  {| nodes := nodes m; head := head m; currentBundle := c;
     blocks := blocks m; states := states m;
     bundleDownloader := bundleDownloader m; clock := clock m; trace := trace m |}.

Definition set_blocks (b : Store.BlockStore) (m : Majority) : Majority :=
  {| nodes := nodes m; head := head m; currentBundle := currentBundle m;
     blocks := b; states := states m;
     bundleDownloader := bundleDownloader m; clock := clock m; trace := trace m |}.

Definition set_states (s : Store.BeaconStateStore) (m : Majority) : Majority :=
  {| nodes := nodes m; head := head m; currentBundle := currentBundle m;
     blocks := blocks m; states := s;
     bundleDownloader := bundleDownloader m; clock := clock m; trace := trace m |}.

Definition set_bundleDownloader (d : BundleDownloader) (m : Majority) : Majority :=
  {| nodes := nodes m; head := head m; currentBundle := currentBundle m;
     blocks := blocks m; states := states m;
     bundleDownloader := d; clock := clock m; trace := trace m |}.

Definition set_nodes (ns : Nodes) (m : Majority) : Majority :=
  {| nodes := ns; head := head m; currentBundle := currentBundle m;
     blocks := blocks m; states := states m;
     bundleDownloader := bundleDownloader m; clock := clock m; trace := trace m |}.

Definition set_clock (t : Z) (m : Majority) : Majority :=
  {| nodes := nodes m; head := head m; currentBundle := currentBundle m;
     blocks := blocks m; states := states m;
     bundleDownloader := bundleDownloader m; clock := t; trace := trace m |}.

Definition record (e : Effect) (m : Majority) : Majority :=
  {| nodes := nodes m; head := head m; currentBundle := currentBundle m;
     blocks := blocks m; states := states m;
     bundleDownloader := bundleDownloader m; clock := clock m;
     trace := trace m ++ [e] |}.

(** How a method ends: it returns (a nil error), returns an error, or panics. *)
Inductive outcome (A : Type) : Type :=
| Return (a : A)
| Fail (e : error)
| Panic.
Arguments Return {A} a.
Arguments Fail {A} e.
Arguments Panic {A}.

(** A method of [*Majority]. *)
Definition M (A : Type) : Type := Majority -> outcome A * Majority.

Definition ret {A} (a : A) : M A := fun m => (Return a, m).

Definition bind {A B} (c : M A) (k : A -> M B) : M B :=
  fun m =>
    match c m with
    | (Return a, m') => k a m'
    | (Fail e, m') => (Fail e, m')
    | (Panic, m') => (Panic, m')
    end.

Declare Scope go_scope.
Delimit Scope go_scope with go.
Notation "x <- c ;; k" := (bind c (fun x => k))
  (at level 61, c at next level, right associativity) : go_scope.
Notation "c ;; k" := (bind c (fun _ => k))
  (at level 61, right associativity) : go_scope.
Local Open Scope go_scope.

Definition fail {A} (e : error) : M A := fun m => (Fail e, m).
Definition panic {A} : M A := fun m => (Panic, m).
Definition gets {A} (f : Majority -> A) : M A := fun m => (Return (f m), m).
Definition modify (f : Majority -> Majority) : M unit := fun m => (Return tt, f m).
Definition effect (e : Effect) : M unit := modify (record e).

(** [if err != nil { return err }]. *)
Definition try {A} (r : result A) : M A :=
  match r with Ok a => ret a | Err e => fail e end.

(** Reading through a pointer: nil panics. *)
Definition deref {A} (p : option A) : M A :=
  match p with Some a => ret a | None => panic end.

(** [checkpoint.Finalized] of a [*v1.Finality]. *)
Definition finalized (checkpoint : option Finality) : M Checkpoint :=
  f <- deref checkpoint ;; deref (Finalized f).

(** The store methods as the provider calls them, each read leaving its mark. *)
Definition blocks_GetByRoot (root : Z) : M (result (option Block)) :=
  effect (ReadBlockByRoot root) ;;
  gets (fun m => Store.GetByRoot (blocks m) (clock m) root).

Definition blocks_GetBySlot (slot : Z) : M (result (option Block)) :=
  effect (ReadBlockBySlot slot) ;;
  gets (fun m => Store.GetBySlot (blocks m) (clock m) slot).

Definition blocks_GetByStateRoot (sr : Z) : M (result (option Block)) :=
  effect (ReadBlockByStateRoot sr) ;;
  gets (fun m => Store.GetByStateRoot (blocks m) (clock m) sr).

Definition states_GetByStateRoot (sr : Z) : M (result (option BeaconState)) :=
  effect (ReadState sr) ;;
  gets (fun m => Store.StateGetByStateRoot (states m) (clock m) sr).

Definition topicFinalityHeadUpdated : string := "finality_head_updated".

Definition slotsPerEpoch : Z := 32.

Definition errBlockNotFound : error := "block not found".
Definition errStateNotFound : error := "state not found".
Definition errNotAligned (blockSlot : Z) : error :=
  ("block slot is not aligned from an epoch boundary: " ++ decimal blockSlot)%string.
Definition errSlot (e : error) : error :=
  ("failed to get slot from block: " ++ e)%string.

(** [func (m *Majority) publishFinalityCheckpointHeadUpdated]: the event goes
    to the broker, which hands it to each subscriber in a task of its own
    (section 4.F of the spec); the subscribers run as steps of the system
    below, not inside the publisher. *)
Definition publishFinalityCheckpointHeadUpdated (checkpoint : option Finality)
  : M unit :=
  effect (Emit topicFinalityHeadUpdated checkpoint).

(** [func (m *Majority) updateServingCheckpoint]. *)
Definition updateServingCheckpoint (checkpoint : option Finality) : M unit :=
  cp <- finalized checkpoint ;;
  r <- blocks_GetByRoot (Root cp) ;;
  block <- try r ;;
  match block with
  | None => fail errBlockNotFound
  | Some block =>
      stateRoot <- try (block_StateRoot block) ;;
      r <- states_GetByStateRoot stateRoot ;;
      state <- try r ;;
      match state with
      | None => fail errStateNotFound
      | Some _ =>
          match block_Slot block with
          | Err e => fail (errSlot e)
          | Ok blockSlot =>
              if negb (blockSlot mod slotsPerEpoch =? 0)
              then fail (errNotAligned blockSlot)
              else
                modify (set_currentBundle checkpoint) ;;
                served <- gets currentBundle ;;
                scp <- finalized served ;;
                effect (ObserveServingEpoch (Epoch scp))
          end
      end
  end.

(** The test [cur == nil || cur.Finalized == nil ||
    cur.Finalized.Root != majority.Finalized.Root] of [checkFinality], with
    Go's left-to-right evaluation: [majority] is read only by the last
    disjunct. *)
Definition rootDiffers (cur majority : option Finality) : M bool :=
  match cur with
  | None => ret true
  | Some c =>
      match Finalized c with
      | None => ret true
      | Some cc => mc <- finalized majority ;; ret (negb (Root cc =? Root mc))
      end
  end.

(** The loop of [checkFinality] over the ready nodes: a node whose
    [GetFinality] fails is skipped. *)
Fixpoint collectFinality (readyNodes : Nodes) : M (list (option Finality)) :=
  match readyNodes with
  | [] => ret []
  | node :: rest =>
      effect (Upstream (Name node) ReqFinality) ;;
      match GetFinality (Beacon node) with
      | Err _ => collectFinality rest
      | Ok finality =>
          aggFinality <- collectFinality rest ;;
          ret (finality :: aggFinality)
      end
  end.

Section Provider.

(** [NewCheckpoints(aggFinality).Majority()]: the aggregator is in another
    file of the package. *)
Variable CheckpointsMajority : list (option Finality) -> result (option Finality).

(** [CalculateBlockExpiration(slot, secondsPerSlot, slotsPerEpoch, genesisTime,
    ttl)], also in another file; the first argument here is the wall clock. *)
Variable CalculateBlockExpiration : Z -> Z -> Z -> Z -> Z -> Z -> Z.

(** [func (m *Majority) checkFinality]. *)
Definition checkFinality : M unit :=
  ns <- gets nodes ;;
  aggFinality <- collectFinality (Ready ns) ;;
  majority <- try (CheckpointsMajority aggFinality) ;;
  h <- gets head ;;
  changed <- rootDiffers h majority ;;
  (if changed : bool then
     modify (set_head majority) ;;
     publishFinalityCheckpointHeadUpdated majority ;;
     _ <- finalized majority ;;
     ret tt
   else ret tt) ;;
  cb <- gets currentBundle ;;
  changed <- rootDiffers cb majority ;;
  if changed : bool then updateServingCheckpoint majority else ret tt.

(** [func (m *Majority) handleFinalityUpdated]. *)
Definition handleFinalityUpdated (checkpoint : option Finality) : M unit :=
  cp <- finalized checkpoint ;;
  d <- gets bundleDownloader ;;
  d' <- try (AddToQueue d (Root cp)) ;;
  modify (set_bundleDownloader d').

(** [time.Hour], a [time.Duration] in nanoseconds. *)
Definition Hour : Z := 3600 * 1000000000.

Definition historicalDistance : Z := 10.

(** One turn of the loop of [fetchHistoricalCheckpoints], for one [i];
    [continue] is a normal return, [return err] an error that ends the loop. *)
Definition fetchHistoricalSlot (upstream : Node) (sp : Spec) (genesis : Genesis)
  (currentSlot i : Z) : M unit :=
  if wrap64 (currentSlot - wrap64 (i * wrap64 (SlotsPerEpoch sp))) =? 0
  then ret tt
  else
    let slot := wrap64 (currentSlot - wrap64 (i * wrap64 (SlotsPerEpoch sp))) in
    bl <- blocks_GetBySlot slot ;;
    match bl with
    | Ok (Some _) => ret tt
    | _ =>
        effect (Upstream (Name upstream) (ReqBlock (decimal slot))) ;;
        block <- try (FetchBlock (Beacon upstream) (decimal slot)) ;;
        match block with
        | None => ret tt
        | Some block =>
            _ <- try (block_StateRoot block) ;;
            now <- gets clock ;;
            let expiresAt :=
              CalculateBlockExpiration now slot (SecondsPerSlot sp)
                (wrap64 (SlotsPerEpoch sp)) (GenesisTime genesis) (3 * 24 * Hour) in
            store <- gets blocks ;;
            store' <- try (Store.Add store now block expiresAt) ;;
            modify (set_blocks store')
        end
    end.

(** [for i := uint64(1); i < historicalDistance; i++], [n] turns left. *)
Fixpoint fetchHistoricalLoop (upstream : Node) (sp : Spec) (genesis : Genesis)
  (currentSlot : Z) (n : nat) (i : Z) : M unit :=
  match n with
  | O => ret tt
  | S n' =>
      fetchHistoricalSlot upstream sp genesis currentSlot i ;;
      fetchHistoricalLoop upstream sp genesis currentSlot n' (i + 1)
  end.

(** [func (m *Majority) fetchHistoricalCheckpoints]. *)
Definition fetchHistoricalCheckpoints (pick : nat) (checkpoint : option Finality)
  : M unit :=
  ns <- gets nodes ;;
  match RandomNode (DataProviders (Ready ns)) pick with
  | Err _ => fail "no data provider node available"
  | Ok upstream =>
      effect (Upstream (Name upstream) ReqSpec) ;;
      sp <- try (GetSpec (Beacon upstream)) ;;
      effect (Upstream (Name upstream) ReqGenesis) ;;
      genesis <- try (GetGenesis (Beacon upstream)) ;;
      cp <- finalized checkpoint ;;
      let currentSlot := wrap64 (Epoch cp * wrap64 (SlotsPerEpoch sp)) in
      fetchHistoricalLoop upstream sp genesis currentSlot
        (Z.to_nat (historicalDistance - 1)) 1
  end.

(** The opening test of [checkGenesis]: are the genesis block and its state
    both stored? *)
Definition genesisStored : M bool :=
  r <- blocks_GetBySlot 0 ;;
  match r with
  | Ok (Some block) =>
      match block_StateRoot block with
      | Ok stateRoot =>
          st <- states_GetByStateRoot stateRoot ;;
          match st with
          | Ok (Some _) => ret true
          | _ => ret false
          end
      | Err _ => ret false
      end
  | _ => ret false
  end.

(** [func (m *Majority) checkGenesis]. *)
Definition checkGenesis (pick : nat) : M unit :=
  stored <- genesisStored ;;
  if stored : bool then ret tt
  else
    ns <- gets nodes ;;
    let readyNodes := Ready ns in
    if (List.length readyNodes =? 0)%nat then fail "no nodes ready"
    else
      randomNode <- try (RandomNode readyNodes pick) ;;
      effect (Upstream (Name randomNode) (ReqBlock "genesis")) ;;
      genesisBlock <- try (FetchBlock (Beacon randomNode) "genesis") ;;
      genesisBlock <- deref genesisBlock ;;
      genesisBlockRoot <- try (block_Root genesisBlock) ;;
      d <- gets bundleDownloader ;;
      if ExistsInQueue d genesisBlockRoot then ret tt
      else
        d' <- try (AddToQueue d genesisBlockRoot) ;;
        modify (set_bundleDownloader d').

(** [func (m *Majority) startGenesisLoop]: a [select] between the five-second
    timer and the cancellation of the context; [timer] tells which fires.  An
    error of [checkGenesis] is logged, not returned. *)
Definition startGenesisLoop (timer : bool) (pick : nat) : M unit :=
  if timer then
    fun m =>
      match checkGenesis pick m with
      | (Fail _, m') => (Return tt, m')
      | r => r
      end
  else fail "context canceled".

(** The read side: [GetBlockBySlot], [GetBlockByRoot], [GetBlockByStateRoot]. *)
Definition found (r : result (option Block)) : M Block :=
  block <- try r ;;
  match block with
  | None => fail errBlockNotFound
  | Some block => ret block
  end.

Definition GetBlockBySlot (slot : Z) : M Block :=
  r <- blocks_GetBySlot slot ;; found r.

Definition GetBlockByRoot (root : Z) : M Block :=
  r <- blocks_GetByRoot root ;; found r.

Definition GetBlockByStateRoot (stateRoot : Z) : M Block :=
  r <- blocks_GetByStateRoot stateRoot ;; found r.

(** [GetBeaconStateBySlot], [GetBeaconStateByStateRoot], [GetBeaconStateByRoot]. *)
Definition GetBeaconStateBySlot (slot : Z) : M (option BeaconState) :=
  block <- GetBlockBySlot slot ;;
  stateRoot <- try (block_StateRoot block) ;;
  r <- states_GetByStateRoot stateRoot ;;
  try r.

Definition GetBeaconStateByStateRoot (stateRoot : Z) : M (option BeaconState) :=
  r <- states_GetByStateRoot stateRoot ;;
  try r.

Definition GetBeaconStateByRoot (root : Z) : M (option BeaconState) :=
  block <- GetBlockByRoot root ;;
  stateRoot <- try (block_StateRoot block) ;;
  r <- states_GetByStateRoot stateRoot ;;
  try r.

(** [func (m *Majority) Finality]. *)
Definition FinalityOf : M (option Finality) := gets currentBundle.

End Provider.

(** [NewMajorityProvider]: both views start as an empty [v1.Finality] and both
    stores empty.  [limit] bounds the downloader's queue and [now] is the time
    of the call. *)
Definition NewMajorityProvider (ns : Nodes) (limit : nat) (now : Z) : Majority :=
  {| nodes := ns;
     head := Some {| Finalized := None; Justified := None |};
     currentBundle := Some {| Finalized := None; Justified := None |};
     blocks := [];
     states := [];
     bundleDownloader := {| queue := []; queue_limit := limit |};
     clock := now;
     trace := [] |}.

(** Modelled from the spec: the [Healthy] and [NotSyncing] filters of the
    pool (section 4.A), which are in another file of the package. *)
Definition Nodes_Healthy (ns : Nodes) : Nodes := filter Healthy ns.

Definition Nodes_NotSyncing (ns : Nodes) : Nodes :=
  filter (fun n => negb (Syncing n)) ns.

(** [func (m *Majority) Healthy]. *)
Definition Majority_Healthy : M bool :=
  ns <- gets nodes ;;
  if (List.length (Nodes_Healthy ns) =? 0)%nat then ret false else ret true.

(** [func (m *Majority) Syncing]. *)
Definition Majority_Syncing : M bool :=
  ns <- gets nodes ;;
  if (List.length (Nodes_NotSyncing ns) =? 0)%nat then ret true else ret false.

(** * What the statements speak of *)

(** ** Views, stores and traces *)

(** The three preconditions of the serving update, read at one instant: the
    block store answers the root with a block, the state store answers that
    block's state root with a state, and the block's slot is a multiple of 32. *)
Definition servable (m : Majority) (root : Z) : Prop :=
  exists block stateRoot state blockSlot,
    Store.GetByRoot (blocks m) (clock m) root = Ok (Some block) /\
    block_StateRoot block = Ok stateRoot /\
    Store.StateGetByStateRoot (states m) (clock m) stateRoot = Ok (Some state) /\
    block_Slot block = Ok blockSlot /\
    blockSlot mod 32 = 0.

(** The events published on the broker so far. *)
Definition published (m : Majority) : list (option Finality) :=
  flat_map (fun e => match e with Emit _ c => [c] | _ => [] end) (trace m).

(** The store reads made so far that ask for a slot. *)
Definition slotReads (m : Majority) : list Z :=
  flat_map (fun e => match e with ReadBlockBySlot s => [s] | _ => [] end) (trace m).

(** The calls made to upstream nodes so far. *)
Definition upstreamCalls (m : Majority) : list (string * Request) :=
  flat_map (fun e => match e with Upstream n r => [(n, r)] | _ => [] end) (trace m).

Definition records (es : list Effect) (m : Majority) : Majority :=
  {| nodes := nodes m; head := head m; currentBundle := currentBundle m;
     blocks := blocks m; states := states m;
     bundleDownloader := bundleDownloader m; clock := clock m;
     trace := trace m ++ es |}.

(** The reports the ready nodes give, failed calls left out, and the calls
    made to get them. *)
Definition reports (readyNodes : Nodes) : list (option Finality) :=
  flat_map (fun n => match GetFinality (Beacon n) with
                     | Ok f => [f]
                     | Err _ => []
                     end) readyNodes.

Definition finalityCalls (readyNodes : Nodes) : list Effect :=
  map (fun n => Upstream (Name n) ReqFinality) readyNodes.

(** The head test on a majority whose finalized checkpoint is [mc]. *)
Definition rootChanged (cur : option Finality) (mc : Checkpoint) : bool :=
  match cur with
  | Some {| Finalized := Some cc |} => negb (Root cc =? Root mc)
  | _ => true
  end.

(** The state a finality check hands to the serving update: the calls to the
    ready nodes are made and, when the root changed, the head is replaced and
    the event published. *)
Definition afterHead (maj : Finality) (mc : Checkpoint) (m : Majority) : Majority :=
  let m1 := records (finalityCalls (Ready (nodes m))) m in
  if rootChanged (head m) mc
  then record (Emit topicFinalityHeadUpdated (Some maj)) (set_head (Some maj) m1)
  else m1.

(** The finalized root a view holds, if it holds one. *)
Definition finalizedRoot (view : option Finality) : option Z :=
  match view with
  | Some {| Finalized := Some c |} => Some (Root c)
  | _ => None
  end.

(** What a Go result pair is to the caller it is handed to. *)
Definition returned {A} (r : result A) : outcome A :=
  match r with Ok a => Return a | Err e => Fail e end.

(** The block store answers slot 0 and the state store answers that block's
    state root. *)
Definition holdsGenesis (m : Majority) : Prop :=
  exists block stateRoot state,
    Store.GetBySlot (blocks m) (clock m) 0 = Ok (Some block) /\
    block_StateRoot block = Ok stateRoot /\
    Store.StateGetByStateRoot (states m) (clock m) stateRoot = Ok (Some state).

Definition isStoreRead (e : Effect) : bool :=
  match e with
  | ReadBlockByRoot _ | ReadBlockBySlot _ | ReadBlockByStateRoot _ | ReadState _ => true
  | _ => false
  end.

(** ** What a method leaves alone *)

(** [preserves R c]: from any state, [c] ends in a state related by [R] to the
    one it started in, whatever it returns. *)
Definition preserves {A} (R : Majority -> Majority -> Prop) (c : M A) : Prop :=
  forall m, R m (snd (c m)).

(** A relation between the state before and the state after that composes. *)
Class Frame (R : Majority -> Majority -> Prop) : Prop := {
  frame_refl : forall m, R m m;
  frame_trans : forall m1 m2 m3, R m1 m2 -> R m2 m3 -> R m1 m3 }.

(** The two views: what no method but the finality check assigns. *)
Definition sameViews (m m' : Majority) : Prop :=
  head m' = head m /\ currentBundle m' = currentBundle m.

(** No read by slot was added. *)
Definition sameSlotReads (m m' : Majority) : Prop := slotReads m' = slotReads m.

(** The state of a provider whose head holds the majority while the serving
    view cannot follow: [m] has the nodes, stores and clock of [m0], its head
    is the majority and its serving view is the one of [m0]. *)
Definition stuck (maj : Finality) (mc : Checkpoint) (m0 m : Majority) : Prop :=
  head m = Some maj /\
  currentBundle m = currentBundle m0 /\
  published m = published m0 ++ [Some maj] /\
  blocks m = blocks m0 /\ states m = states m0 /\ clock m = clock m0 /\
  nodes m = nodes m0.

(** ** The historical back-fill, in the words of the spec *)

(** The values [i] takes in a loop of [n] turns that starts at [i]. *)
Fixpoint turns (n : nat) (i : Z) : list Z :=
  match n with
  | O => []
  | S n' => i :: turns n' (i + 1)
  end.

(** The slot of turn [i]: [current_slot - i * SlotsPerEpoch], in [uint64]. *)
Definition slotOfTurn (currentSlot slotsPerEpoch i : Z) : Z :=
  wrap64 (currentSlot - wrap64 (i * wrap64 slotsPerEpoch)).

(** The slots the back-fill considers for finalized epoch [E]:
    [current_slot = E * SlotsPerEpoch] and [i] from 1 to 9. *)
Definition historicalSlots (E slotsPerEpoch : Z) : list Z :=
  map (slotOfTurn (wrap64 (E * wrap64 slotsPerEpoch)) slotsPerEpoch)
    (turns 9 1).

(** The upstream serves [blockOf s] for slot [s], a block the store can index. *)
Definition serves (upstream : Node) (blockOf : Z -> Block) (s : Z) : Prop :=
  FetchBlock (Beacon upstream) (decimal s) = Ok (Some (blockOf s)) /\
  (exists sr, block_StateRoot (blockOf s) = Ok sr) /\
  (forall store now expires_at,
     exists store', Store.Add store now (blockOf s) expires_at = Ok store').

(** ** The provider among its collaborators *)

(** Modelled from the spec: a finished task of the bundle downloader (section
    4.C).  A queued root leaves the queue; the block fetched for it, whose
    root is the one asked for, and the state of its state root enter the
    stores with one expiry. *)
Definition admitBundle (root : Z) (block : Block) (state : BeaconState)
  (expires_at : Z) (m : Majority) : option Majority :=
  match block_Root block, block_StateRoot block,
        Store.Add (blocks m) (clock m) block expires_at with
  | Ok r, Ok stateRoot, Ok blocks' =>
      if (r =? root) && existsb (Z.eqb root) (queue (bundleDownloader m))
      then Some
             (set_bundleDownloader
                {| queue := filter (fun q => negb (q =? root))
                              (queue (bundleDownloader m));
                   queue_limit := queue_limit (bundleDownloader m) |}
                (set_states
                   (Store.StateAdd (states m) (clock m) stateRoot state expires_at)
                   (set_blocks blocks' m)))
      else None
  | _, _, _ => None
  end.


Section Collaborators.

(** The aggregator and the expiry rule are in other files of the package. *)
Variable CheckpointsMajority : list (option Finality) -> result (option Finality).
Variable CalculateBlockExpiration : Z -> Z -> Z -> Z -> Z -> Z -> Z.

(** The state one finality check leaves. *)
Definition tick (m : Majority) : Majority :=
  snd (checkFinality CheckpointsMajority m).

(** The back-fill in the words of the spec, for one slot [s], when the
    upstream serves the block [blockOf s] for it: slot 0 is skipped, a slot
    the block store already answers is skipped, and otherwise the block is
    fetched by slot and admitted with the expiry computed for [s]. *)
Definition backfillSlot (upstream : Node) (sp : Spec) (genesis : Genesis)
  (blockOf : Z -> Block) (m : Majority) (s : Z) : Majority :=
  if s =? 0 then m
  else
    match Store.GetBySlot (blocks m) (clock m) s with
    | Ok (Some _) => record (ReadBlockBySlot s) m
    | _ =>
        let expiresAt :=
          CalculateBlockExpiration (clock m) s (SecondsPerSlot sp)
            (wrap64 (SlotsPerEpoch sp)) (GenesisTime genesis) (3 * 24 * Hour) in
        let fetched :=
          record (Upstream (Name upstream) (ReqBlock (decimal s)))
            (record (ReadBlockBySlot s) m) in
        match Store.Add (blocks m) (clock m) (blockOf s) expiresAt with
        | Ok store' => set_blocks store' fetched
        | Err _ => fetched
        end
    end.

Definition backfill (upstream : Node) (sp : Spec) (genesis : Genesis)
  (blockOf : Z -> Block) (slots : list Z) (m : Majority) : Majority :=
  fold_left (backfillSlot upstream sp genesis blockOf) slots m.



End Collaborators.

Module Checkpoints.

(** Modelled from the spec: the aggregator of section 4.D is in another file
    of the package.  Reports are keyed by finalized epoch and root; the key
    with the most reports wins, a tie goes to the higher epoch and then to the
    larger root; no keyed report at all is an error. *)
Definition key (r : option Finality) : option Checkpoint :=
  match r with
  | Some {| Finalized := Some c |} => Some c
  | _ => None
  end.

Definition sameKey (a b : Checkpoint) : bool :=
  (Epoch a =? Epoch b) && (Root a =? Root b).

Definition votes (rs : list (option Finality)) (c : Checkpoint) : nat :=
  List.length
    (filter (fun r => match key r with Some k => sameKey c k | None => false end) rs).

Definition beats (rs : list (option Finality)) (a b : Checkpoint) : bool :=
  (votes rs b <? votes rs a)%nat
  || ((votes rs a =? votes rs b)%nat
      && ((Epoch b <? Epoch a) || ((Epoch a =? Epoch b) && (Root b <? Root a)))).

Definition Majority (rs : list (option Finality)) : result (option Finality) :=
  match
    fold_left
      (fun best r =>
         match key r, best with
         | Some k, Some (_, bk) => if beats rs k bk then Some (r, k) else best
         | Some k, None => Some (r, k)
         | None, _ => best
         end) rs None
  with
  | Some (r, _) => Ok r
  | None => Err "no checkpoints"
  end.

End Checkpoints.

(** ** A run: one upstream, epoch 100 *)

Module Scenario.

(** An expiry rule for the runs below: an entry lives for the given ttl. *)
Definition expireAfterTtl (now slot secondsPerSlot slotsPerEpoch genesisTime ttl : Z)
  : Z := now + ttl.

Definition checkpointAA : Finality :=
  {| Finalized := Some {| Epoch := 100; Root := 0xAA |}; Justified := None |}.

(** The finalized block of epoch 100: slot 3200, state root 0x55. *)
Definition blockAA : Block :=
  {| block_Slot := Ok 3200; block_Root := Ok 0xAA; block_StateRoot := Ok 0x55 |}.

(** The block an upstream answers for a slot it is asked by number. *)
Definition blockAt (slot : Z) : Block :=
  {| block_Slot := Ok slot; block_Root := Ok (0x1000 + slot);
     block_StateRoot := Ok (0x2000 + slot) |}.

Definition slotOf (id : string) : option Z :=
  find (fun s => String.eqb (decimal s) id)
    (map (fun i => 3200 - 32 * Z.of_nat i) (seq 0 101)).

(** A ready data provider that reports epoch 100 as finalized and serves the
    epoch boundaries up to slot 3200 by number. *)
Definition upstream1 : Node :=
  {| Name := "upstream-1"; Healthy := true; Syncing := false;
     DataProvider := true;
     Beacon :=
       {| GetFinality := Ok (Some checkpointAA);
          GetSpec := Ok {| SlotsPerEpoch := 32; SecondsPerSlot := 12 |};
          GetGenesis := Ok {| GenesisTime := 0 |};
          FetchBlock := fun id =>
            match slotOf id with
            | Some s => Ok (Some (blockAt s))
            | None => Err "404"
            end |} |}.

Definition started : Majority := NewMajorityProvider [upstream1] 16 0.

(** First check: the head moves to epoch 100, the bundle is not there yet. *)
Definition afterFirstTick : Majority := tick Checkpoints.Majority started.

(** The download subscriber queues the root. *)
Definition queued : Majority :=
  snd (handleFinalityUpdated (Some checkpointAA) afterFirstTick).

(** The downloader admits the bundle, to expire at time 1000. *)
Definition afterDownload : option Majority :=
  admitBundle 0xAA blockAA [] 1000 queued.

Definition bundled : Majority :=
  match afterDownload with Some m => m | None => queued end.

(** Second check: the serving view follows. *)
Definition serving : Majority := tick Checkpoints.Majority bundled.

(** Time passes until the bundle has expired. *)
Definition expired : Majority := set_clock 1000 serving.

Definition epoch100 : Checkpoint := {| Epoch := 100; Root := 0xAA |}.
Definition spec32 : Spec := {| SlotsPerEpoch := 32; SecondsPerSlot := 12 |}.
Definition genesis0 : Genesis := {| GenesisTime := 0 |}.

(** The back-fill after the first check of the scenario. *)
Definition backfilled : Majority :=
  snd (fetchHistoricalCheckpoints expireAfterTtl 0 (Some checkpointAA) afterFirstTick).

End Scenario.

(** ** A run with the genesis bundle stored *)

Module GenesisRun.

Definition genesisBlock : Block :=
  {| block_Slot := Ok 0; block_Root := Ok 0x01; block_StateRoot := Ok 0x02 |}.

(** A ready node that reports epoch 100 as finalized and serves the genesis
    block. *)
Definition upstreamG : Node :=
  {| Name := "upstream-g"; Healthy := true; Syncing := false;
     DataProvider := true;
     Beacon :=
       {| GetFinality := Ok (Some Scenario.checkpointAA);
          GetSpec := Ok {| SlotsPerEpoch := 32; SecondsPerSlot := 12 |};
          GetGenesis := Ok {| GenesisTime := 0 |};
          FetchBlock := fun id =>
            if String.eqb id "genesis" then Ok (Some genesisBlock) else Err "404" |} |}.

Definition started : Majority := NewMajorityProvider [upstreamG] 16 0.

(** The genesis task fires and queues the genesis root; the downloader admits
    the genesis bundle. *)
Definition queued : Majority := snd (startGenesisLoop true 0 started).

Definition stored : Majority :=
  match admitBundle 0x01 genesisBlock [] 1000 queued with
  | Some m => m
  | None => queued
  end.

(** Three finality checks later. *)
Definition threeTicksLater : Majority :=
  Nat.iter 3 (tick Checkpoints.Majority) stored.

End GenesisRun.

(** ** More of what the statements speak of *)

(** The serving epochs handed to the metrics so far. *)
Definition servingEpochs (m : Majority) : list Z :=
  flat_map (fun e => match e with ObserveServingEpoch x => [x] | _ => [] end)
    (trace m).

(** The trace grew by effects that all satisfy [P]. *)
Definition grows (P : Effect -> Prop) (m m' : Majority) : Prop :=
  exists es, trace m' = trace m ++ es /\ Forall P es.

(** Nothing but the trace changed, and the trace grew by store reads only. *)
Definition readsOnly (m m' : Majority) : Prop :=
  exists es, m' = records es m /\ forallb isStoreRead es = true.

(** What the finality check leaves alone: the stores, the downloader, the
    nodes and the clock. *)
Definition sameStores (m m' : Majority) : Prop :=
  blocks m' = blocks m /\ states m' = states m /\
  bundleDownloader m' = bundleDownloader m /\
  nodes m' = nodes m /\ clock m' = clock m.

(** What the back-fill leaves alone: all but the block store and the trace. *)
Definition onlyBlocks (m m' : Majority) : Prop :=
  states m' = states m /\ bundleDownloader m' = bundleDownloader m /\
  head m' = head m /\ currentBundle m' = currentBundle m /\
  nodes m' = nodes m /\ clock m' = clock m.

(** What the download subscriber and the genesis check leave alone: all but
    the downloader and the trace. *)
Definition onlyQueue (m m' : Majority) : Prop :=
  blocks m' = blocks m /\ states m' = states m /\
  head m' = head m /\ currentBundle m' = currentBundle m /\
  nodes m' = nodes m /\ clock m' = clock m.

(** What a back-fill may do to its collaborators when [upstream] is the node
    it picked: read the block store by slot and call that node. *)
Definition backfillEffect (upstream : Node) (e : Effect) : Prop :=
  match e with
  | ReadBlockBySlot _ => True
  | Upstream n _ => n = Name upstream
  | _ => False
  end.

(** What a finality check may do: call a node for its finality, publish,
    read the stores by root and state root, and hand an epoch to the
    metrics. *)
Definition tickEffect (e : Effect) : Prop :=
  match e with
  | Upstream _ ReqFinality | Emit _ _ | ReadBlockByRoot _ | ReadState _
  | ObserveServingEpoch _ => True
  | _ => False
  end.

(** ** Entries of the stores, and runs over one chain *)

(** The block store has an entry under the root, the state store one under the
    state root, expired or not. *)
Definition holdsRoot (s : Store.BlockStore) (root : Z) : Prop :=
  exists e, In e s /\ Store.be_root e = root.

Definition holdsStateRoot (s : Store.BeaconStateStore) (stateRoot : Z) : Prop :=
  exists e, In e s /\ Store.se_state_root e = stateRoot.

(** The same with an entry that has not expired at the provider's clock. *)
Definition liveBlock (m : Majority) (root : Z) : Prop :=
  exists e, In e (blocks m) /\ Store.be_root e = root /\
            clock m < Store.be_expires_at e.



(** What the subscribers, the genesis task, the downloader and the clock leave
    of a served bundle: the serving view, and an entry under every root and
    state root that had one. *)
Definition keepsBundles (m m' : Majority) : Prop :=
  currentBundle m' = currentBundle m /\
  (forall root, holdsRoot (blocks m) root -> holdsRoot (blocks m') root) /\
  (forall sr, holdsStateRoot (states m) sr -> holdsStateRoot (states m') sr).


Section Runs.

Variable CheckpointsMajority : list (option Finality) -> result (option Finality).
Variable CalculateBlockExpiration : Z -> Z -> Z -> Z -> Z -> Z -> Z.
Variable chain : Z -> Block.


End Runs.

(** ** The back-fill, slot by slot *)

Module Expire.

(** Modelled from the spec: [CalculateBlockExpiration] is in another file of
    the package.  Section 4.E gives the expiry of a back-filled block as
    [min(now + 3 days, genesis_time + (s + SLOT_LOOKAHEAD) * SecondsPerSlot)],
    the three days being the ttl the handler passes; the spec names
    [SLOT_LOOKAHEAD] and leaves its value open. *)
Definition CalculateBlockExpiration (SLOT_LOOKAHEAD : Z)
  (now slot secondsPerSlot slotsPerEpoch genesisTime ttl : Z) : Z :=
  Z.min (now + ttl) (genesisTime + (slot + SLOT_LOOKAHEAD) * secondsPerSlot).

End Expire.

(** The slots in the words of the spec, over the integers:
    [E * SlotsPerEpoch - i * SlotsPerEpoch] for [i] from 1 to [k]. *)
Definition specSlots (E slotsPerEpoch : Z) (k : nat) : list Z :=
  map (fun i => E * slotsPerEpoch - i * slotsPerEpoch) (turns k 1).



(** ** Runs at the edges *)

Module Edge.

(** An aggregator that hands back the first report as it came. *)
Definition firstReport (rs : list (option Finality)) : result (option Finality) :=
  match rs with
  | r :: _ => Ok r
  | [] => Err "no checkpoints"
  end.

(** A finality report without a finalized checkpoint. *)
Definition unfinalized : Finality := {| Finalized := None; Justified := None |}.

Definition checkpoint0 : Finality :=
  {| Finalized := Some {| Epoch := 0; Root := 0x01 |}; Justified := None |}.

(** Epoch 3 finalized, early in the life of a chain. *)
Definition checkpoint3 : Finality :=
  {| Finalized := Some {| Epoch := 3; Root := 0x33 |}; Justified := None |}.

(** A ready data provider at the start of the chain: epoch 0 is finalized and
    it has no block for a slot asked by number. *)
Definition upstream0 : Node :=
  {| Name := "upstream-0"; Healthy := true; Syncing := false;
     DataProvider := true;
     Beacon :=
       {| GetFinality := Ok (Some checkpoint0);
          GetSpec := Ok {| SlotsPerEpoch := 32; SecondsPerSlot := 12 |};
          GetGenesis := Ok {| GenesisTime := 0 |};
          FetchBlock := fun _ => Err "404" |} |}.

(** A ready node whose report has no finalized checkpoint. *)
Definition upstreamNil : Node :=
  {| Name := "upstream-nil"; Healthy := true; Syncing := false;
     DataProvider := false;
     Beacon :=
       {| GetFinality := Ok (Some unfinalized);
          GetSpec := Err "unavailable";
          GetGenesis := Err "unavailable";
          FetchBlock := fun _ => Err "404" |} |}.

(** A healthy node that is syncing and a node that is neither. *)
Definition upstreamSyncing : Node :=
  {| Name := "upstream-syncing"; Healthy := true; Syncing := true;
     DataProvider := false; Beacon := Beacon upstreamNil |}.

Definition upstreamDown : Node :=
  {| Name := "upstream-down"; Healthy := false; Syncing := false;
     DataProvider := false; Beacon := Beacon upstreamNil |}.

(** A data provider that serves slots 3168 and 3136 and fails on the rest. *)
Definition upstreamPartial : Node :=
  {| Name := "upstream-partial"; Healthy := true; Syncing := false;
     DataProvider := true;
     Beacon :=
       {| GetFinality := Ok (Some Scenario.checkpointAA);
          GetSpec := Ok {| SlotsPerEpoch := 32; SecondsPerSlot := 12 |};
          GetGenesis := Ok {| GenesisTime := 0 |};
          FetchBlock := fun id =>
            if String.eqb id "3168" then Ok (Some (Scenario.blockAt 3168))
            else if String.eqb id "3136" then Ok (Some (Scenario.blockAt 3136))
            else Err "404" |} |}.

Definition atGenesis : Majority := NewMajorityProvider [upstream0] 16 0.
Definition withNil : Majority := NewMajorityProvider [upstreamNil] 16 0.
Definition noNodes : Majority := NewMajorityProvider [] 16 0.
Definition partial : Majority := NewMajorityProvider [upstreamPartial] 16 0.

End Edge.

(** * Proofs *)

(** ** The serving gate *)

(** A block that gives its three identifiers is admitted. *)
Lemma Add_indexable (s : Store.BlockStore) (now : Z) (b : Block)
  (expires_at : Z) (r sl sr : Z) :
  block_Root b = Ok r -> block_Slot b = Ok sl -> block_StateRoot b = Ok sr ->
  exists s', Store.Add s now b expires_at = Ok s'.
Proof. intros Hr Hsl Hsr. unfold Store.Add. rewrite Hr, Hsl, Hsr. eauto. Qed.

(** ** The stores, entry by entry *)












(** The proofs below read the stores only through their methods. *)
Opaque Store.GetByRoot Store.GetBySlot Store.GetByStateRoot
  Store.StateGetByStateRoot Store.Add.

Ltac go_unfold :=
  unfold updateServingCheckpoint, rootDiffers, finalized, deref, try,
    blocks_GetByRoot, blocks_GetBySlot, blocks_GetByStateRoot,
    states_GetByStateRoot, publishFinalityCheckpointHeadUpdated, effect,
    modify, gets, fail, panic, bind, ret in *.

(** The serving update touches neither store, nor the clock, the nodes, the
    head or the downloader. *)
Lemma updateServingCheckpoint_frame (checkpoint : option Finality) (m : Majority) :
  let m' := snd (updateServingCheckpoint checkpoint m) in
  blocks m' = blocks m /\ states m' = states m /\ clock m' = clock m /\
  nodes m' = nodes m /\ head m' = head m /\
  bundleDownloader m' = bundleDownloader m.
Proof.
  go_unfold. destruct checkpoint as [[[cp|] j]|]; simpl; auto 10.
  destruct (Store.GetByRoot _ _ _) as [[b|]|e]; simpl; auto 10.
  destruct (block_StateRoot b) as [sr|e]; simpl; auto 10.
  destruct (Store.StateGetByStateRoot _ _ _) as [[st|]|e]; simpl; auto 10.
  destruct (block_Slot b) as [s|e]; simpl; auto 10.
  destruct (s mod slotsPerEpoch =? 0); simpl; auto 10.
Qed.

(** What the serving update returns and what it leaves in [currentBundle], by
    the answers of the stores. *)
Lemma updateServingCheckpoint_run (C : Finality) (cp : Checkpoint) (m : Majority) :
  Finalized C = Some cp ->
  let r := updateServingCheckpoint (Some C) m in
  match Store.GetByRoot (blocks m) (clock m) (Root cp) with
  | Err e => fst r = Fail e /\ currentBundle (snd r) = currentBundle m
  | Ok None => fst r = Fail errBlockNotFound /\ currentBundle (snd r) = currentBundle m
  | Ok (Some block) =>
      match block_StateRoot block with
      | Err e => fst r = Fail e /\ currentBundle (snd r) = currentBundle m
      | Ok stateRoot =>
          match Store.StateGetByStateRoot (states m) (clock m) stateRoot with
          | Err e => fst r = Fail e /\ currentBundle (snd r) = currentBundle m
          | Ok None =>
              fst r = Fail errStateNotFound /\ currentBundle (snd r) = currentBundle m
          | Ok (Some _) =>
              match block_Slot block with
              | Err e => fst r = Fail (errSlot e) /\ currentBundle (snd r) = currentBundle m
              | Ok blockSlot =>
                  if blockSlot mod 32 =? 0
                  then fst r = Return tt /\ currentBundle (snd r) = Some C
                  else fst r = Fail (errNotAligned blockSlot) /\
                       currentBundle (snd r) = currentBundle m
              end
          end
      end
  end.
Proof.
  intros HC. go_unfold. simpl. rewrite HC. simpl.
  destruct (Store.GetByRoot _ _ _) as [[b|]|e]; simpl; auto.
  destruct (block_StateRoot b) as [sr|e]; simpl; auto.
  destruct (Store.StateGetByStateRoot _ _ _) as [[st|]|e]; simpl; auto.
  destruct (block_Slot b) as [s|e]; simpl; auto.
  unfold slotsPerEpoch.
  destruct (s mod 32 =? 0); simpl; auto.
Qed.

(** A serving update that does not return normally leaves [currentBundle] as
    it was, whatever the checkpoint. *)
Lemma updateServingCheckpoint_failure_keeps (checkpoint : option Finality)
  (m : Majority) :
  fst (updateServingCheckpoint checkpoint m) <> Return tt ->
  currentBundle (snd (updateServingCheckpoint checkpoint m)) = currentBundle m.
Proof.
  destruct checkpoint as [C|]; [|intros _; reflexivity].
  destruct (Finalized C) as [cp|] eqn:HC.
  - pose proof (updateServingCheckpoint_run C cp m HC) as H. simpl in H.
    destruct (Store.GetByRoot _ _ _) as [[b|]|e]; try tauto.
    destruct (block_StateRoot b) as [sr|e]; try tauto.
    destruct (Store.StateGetByStateRoot _ _ _) as [[st|]|e]; try tauto.
    destruct (block_Slot b) as [s|e]; try tauto.
    destruct (s mod 32 =? 0); tauto.
  - intros _. go_unfold. simpl. rewrite HC. reflexivity.
Qed.

(** A serving update returns normally exactly when the three preconditions
    hold. *)
Lemma updateServingCheckpoint_success (C : Finality) (cp : Checkpoint)
  (m : Majority) :
  Finalized C = Some cp ->
  (fst (updateServingCheckpoint (Some C) m) = Return tt <-> servable m (Root cp)).
Proof.
  intros HC.
  pose proof (updateServingCheckpoint_run C cp m HC) as H. simpl in H.
  unfold servable. split.
  - intros R.
    destruct (Store.GetByRoot _ _ _) as [[b|]|e] eqn:Hb;
      try (destruct H; congruence).
    destruct (block_StateRoot b) as [sr|e] eqn:Hsr; try (destruct H; congruence).
    destruct (Store.StateGetByStateRoot _ _ _) as [[st|]|e] eqn:Hst;
      try (destruct H; congruence).
    destruct (block_Slot b) as [s|e] eqn:Hs; try (destruct H; congruence).
    destruct (s mod 32 =? 0) eqn:E; try (destruct H; congruence).
    exists b, sr, st, s. repeat split; auto. now apply Z.eqb_eq.
  - intros (b & sr & st & s & Hb & Hsr & Hst & Hs & Hal).
    rewrite Hb, Hsr, Hst, Hs in H.
    apply Z.eqb_eq in Hal. rewrite Hal in H. tauto.
Qed.

(** A serving update that returns normally has assigned the checkpoint. *)
Lemma updateServingCheckpoint_assigns (C : Finality) (cp : Checkpoint)
  (m : Majority) :
  Finalized C = Some cp ->
  fst (updateServingCheckpoint (Some C) m) = Return tt ->
  currentBundle (snd (updateServingCheckpoint (Some C) m)) = Some C.
Proof.
  intros HC R.
  pose proof (updateServingCheckpoint_run C cp m HC) as H. simpl in H.
  destruct (Store.GetByRoot _ _ _) as [[b|]|e]; try (destruct H; congruence).
  destruct (block_StateRoot b) as [sr|e]; try (destruct H; congruence).
  destruct (Store.StateGetByStateRoot _ _ _) as [[st|]|e];
    try (destruct H; congruence).
  destruct (block_Slot b) as [s|e]; try (destruct H; congruence).
  destruct (s mod 32 =? 0); destruct H; congruence.
Qed.

(** C2: for a checkpoint [C] with a finalized part, [updateServingCheckpoint]
    fails with "block not found" when the block store has no block at
    [C.Finalized.Root], with "state not found" when the state store has no
    state at that block's [StateRoot()], with the alignment error when the
    block's slot is not a multiple of 32; every outcome other than a normal
    return leaves [currentBundle] as it was, and the call returns normally,
    with [currentBundle = C], exactly when the three preconditions hold. *)
Theorem updateServingCheckpoint_gate (C : Finality) (cp : Checkpoint) (m : Majority) :
  Finalized C = Some cp ->
  let r := updateServingCheckpoint (Some C) m in
  (Store.GetByRoot (blocks m) (clock m) (Root cp) = Ok None ->
   fst r = Fail "block not found") /\
  (forall block stateRoot,
     Store.GetByRoot (blocks m) (clock m) (Root cp) = Ok (Some block) ->
     block_StateRoot block = Ok stateRoot ->
     Store.StateGetByStateRoot (states m) (clock m) stateRoot = Ok None ->
     fst r = Fail "state not found") /\
  (forall block stateRoot state blockSlot,
     Store.GetByRoot (blocks m) (clock m) (Root cp) = Ok (Some block) ->
     block_StateRoot block = Ok stateRoot ->
     Store.StateGetByStateRoot (states m) (clock m) stateRoot = Ok (Some state) ->
     block_Slot block = Ok blockSlot ->
     blockSlot mod 32 <> 0 ->
     fst r = Fail (errNotAligned blockSlot)) /\
  (fst r <> Return tt -> currentBundle (snd r) = currentBundle m) /\
  (fst r = Return tt <-> servable m (Root cp)) /\
  (fst r = Return tt -> currentBundle (snd r) = Some C).
Proof.
  intros HC r.
  pose proof (updateServingCheckpoint_run C cp m HC) as H. simpl in H. fold r in H.
  repeat split.
  - intros Hb. rewrite Hb in H. apply H.
  - intros b sr Hb Hsr Hst. rewrite Hb, Hsr, Hst in H. apply H.
  - intros b sr st s Hb Hsr Hst Hs Hal. rewrite Hb, Hsr, Hst, Hs in H.
    apply Z.eqb_neq in Hal. rewrite Hal in H. apply H.
  - apply updateServingCheckpoint_failure_keeps.
  - apply (updateServingCheckpoint_success C cp m HC).
  - apply (updateServingCheckpoint_success C cp m HC).
  - intros R.
    destruct (Store.GetByRoot _ _ _) as [[b|]|e]; try (destruct H; congruence).
    destruct (block_StateRoot b) as [sr|e]; try (destruct H; congruence).
    destruct (Store.StateGetByStateRoot _ _ _) as [[st|]|e];
      try (destruct H; congruence).
    destruct (block_Slot b) as [s|e]; try (destruct H; congruence).
    destruct (s mod 32 =? 0); destruct H; congruence.
Qed.

(** C7: when [checkpoint] is the value [currentBundle] already holds, running
    [updateServingCheckpoint(checkpoint)] leaves [currentBundle], the block
    store and the state store as they were, whatever the call returns. *)
Theorem updateServingCheckpoint_same_is_noop (checkpoint : option Finality)
  (m : Majority) :
  currentBundle m = checkpoint ->
  let m' := snd (updateServingCheckpoint checkpoint m) in
  currentBundle m' = currentBundle m /\
  blocks m' = blocks m /\
  states m' = states m.
Proof.
  intros Hcur m'.
  destruct (updateServingCheckpoint_frame checkpoint m) as (Hb & Hs & _).
  split; [|split; assumption].
  destruct checkpoint as [C|].
  - destruct (Finalized C) as [cp|] eqn:HC.
    + pose proof (updateServingCheckpoint_failure_keeps (Some C) m) as Hk.
      pose proof (updateServingCheckpoint_assigns C cp m HC) as Hok.
      subst m'.
      destruct (fst (updateServingCheckpoint (Some C) m)) as [[]| |] eqn:R.
      * rewrite Hok by reflexivity. now rewrite Hcur.
      * apply Hk. discriminate.
      * apply Hk. discriminate.
    + apply updateServingCheckpoint_failure_keeps.
      unfold updateServingCheckpoint, finalized, deref, bind, ret, panic.
      rewrite HC. discriminate.
  - reflexivity.
Qed.

(** ** The finality check *)

Lemma blocks_record (e : Effect) (m : Majority) : blocks (record e m) = blocks m.
Proof. reflexivity. Qed.

Lemma clock_record (e : Effect) (m : Majority) : clock (record e m) = clock m.
Proof. reflexivity. Qed.

Lemma records_record (e : Effect) (es : list Effect) (m : Majority) :
  records es (record e m) = records (e :: es) m.
Proof. unfold records, record. simpl. now rewrite <- app_assoc. Qed.

Lemma records_nil (m : Majority) : records [] m = m.
Proof. destruct m. unfold records. simpl. now rewrite app_nil_r. Qed.

Lemma collectFinality_run (readyNodes : Nodes) (m : Majority) :
  collectFinality readyNodes m =
  (Return (reports readyNodes), records (finalityCalls readyNodes) m).
Proof.
  revert m. induction readyNodes as [|n rest IH]; intros m; simpl.
  - unfold ret. now rewrite records_nil.
  - unfold bind, effect, modify at 1. simpl.
    destruct (GetFinality (Beacon n)) as [f|e]; simpl.
    + rewrite IH. unfold ret. now rewrite records_record.
    + rewrite IH. now rewrite records_record.
Qed.

Lemma rootDiffers_run (cur : option Finality) (maj : Finality) (mc : Checkpoint)
  (m : Majority) :
  Finalized maj = Some mc ->
  rootDiffers cur (Some maj) m = (Return (rootChanged cur mc), m).
Proof.
  intros HM. unfold rootDiffers, rootChanged, finalized, deref, bind, ret.
  destruct cur as [[[cc|] j]|]; simpl; try reflexivity.
  now rewrite HM.
Qed.

Section Tick.

Variable CheckpointsMajority : list (option Finality) -> result (option Finality).

Lemma checkFinality_run (maj : Finality) (mc : Checkpoint) (m : Majority) :
  CheckpointsMajority (reports (Ready (nodes m))) = Ok (Some maj) ->
  Finalized maj = Some mc ->
  checkFinality CheckpointsMajority m =
  if rootChanged (currentBundle m) mc
  then updateServingCheckpoint (Some maj) (afterHead maj mc m)
  else (Return tt, afterHead maj mc m).
Proof.
  intros HA HM. unfold checkFinality, afterHead.
  unfold bind, gets. rewrite collectFinality_run, HA.
  unfold try, ret. rewrite (rootDiffers_run _ maj mc _ HM).
  change (head (records (finalityCalls (Ready (nodes m))) m)) with (head m).
  destruct (rootChanged (head m) mc).
  - unfold publishFinalityCheckpointHeadUpdated, effect, modify, finalized,
      deref, bind, ret.
    rewrite HM, (rootDiffers_run _ maj mc _ HM).
    change (currentBundle (record _ (set_head _ (records _ m))))
      with (currentBundle m).
    destruct (rootChanged (currentBundle m) mc); reflexivity.
  - rewrite (rootDiffers_run _ maj mc _ HM).
    change (currentBundle (records (finalityCalls (Ready (nodes m))) m))
      with (currentBundle m).
    destruct (rootChanged (currentBundle m) mc); reflexivity.
Qed.

Lemma rootChanged_true (cur : option Finality) (mc : Checkpoint) :
  rootChanged cur mc = true <-> finalizedRoot cur <> Some (Root mc).
Proof.
  unfold rootChanged, finalizedRoot.
  destruct cur as [[[cc|] j]|]; try (split; [discriminate|reflexivity]).
  rewrite negb_true_iff, Z.eqb_neq. split; congruence.
Qed.

Lemma rootChanged_false (cur : option Finality) (mc : Checkpoint) :
  rootChanged cur mc = false <-> finalizedRoot cur = Some (Root mc).
Proof.
  unfold rootChanged, finalizedRoot.
  destruct cur as [[[cc|] j]|]; try (split; discriminate).
  rewrite negb_false_iff, Z.eqb_eq. split; congruence.
Qed.

Lemma published_record (e : Effect) (m : Majority) :
  published (record e m) =
  published m ++ match e with Emit _ c => [c] | _ => [] end.
Proof.
  unfold published, record. simpl. rewrite flat_map_app. simpl.
  now rewrite app_nil_r.
Qed.

Lemma published_finalityCalls (ns : Nodes) (m : Majority) :
  published (records (finalityCalls ns) m) = published m.
Proof.
  unfold published, records. simpl. rewrite flat_map_app.
  replace (flat_map _ (finalityCalls ns)) with (@nil (option Finality)).
  - now rewrite app_nil_r.
  - induction ns; simpl; auto.
Qed.

Lemma published_set_currentBundle (c : option Finality) (m : Majority) :
  published (set_currentBundle c m) = published m.
Proof. reflexivity. Qed.

(** The serving update publishes nothing. *)
Lemma updateServingCheckpoint_published (checkpoint : option Finality)
  (m : Majority) :
  published (snd (updateServingCheckpoint checkpoint m)) = published m.
Proof.
  go_unfold. destruct checkpoint as [[[cp|] j]|]; simpl; auto.
  destruct (Store.GetByRoot _ _ _) as [[b|]|e]; simpl;
    rewrite ?published_record, ?app_nil_r; auto.
  destruct (block_StateRoot b) as [sr|e]; simpl;
    rewrite ?published_record, ?app_nil_r; auto.
  destruct (Store.StateGetByStateRoot _ _ _) as [[st|]|e]; simpl;
    rewrite ?published_record, ?app_nil_r; auto.
  destruct (block_Slot b) as [s|e]; simpl;
    rewrite ?published_record, ?app_nil_r; auto.
  destruct (s mod slotsPerEpoch =? 0); simpl;
    rewrite ?published_record, ?published_set_currentBundle; simpl;
    rewrite ?published_record, ?published_set_currentBundle; simpl;
    rewrite ?published_record, ?app_nil_r; auto.
Qed.

(** What the serving update returns depends on the stores and the clock only. *)
Lemma updateServingCheckpoint_reads (checkpoint : option Finality)
  (m1 m2 : Majority) :
  blocks m1 = blocks m2 -> states m1 = states m2 -> clock m1 = clock m2 ->
  fst (updateServingCheckpoint checkpoint m1) =
  fst (updateServingCheckpoint checkpoint m2).
Proof.
  intros Hb Hs Hc. go_unfold. destruct checkpoint as [[[cp|] j]|]; simpl; auto.
  rewrite Hb, Hc.
  destruct (Store.GetByRoot _ _ _) as [[b|]|e]; simpl; auto.
  destruct (block_StateRoot b) as [sr|e]; simpl; auto.
  rewrite Hs, Hc.
  destruct (Store.StateGetByStateRoot _ _ _) as [[st|]|e]; simpl; auto.
  destruct (block_Slot b) as [s|e]; simpl; auto.
  destruct (s mod slotsPerEpoch =? 0); simpl; auto.
Qed.

Lemma afterHead_frame (maj : Finality) (mc : Checkpoint) (m : Majority) :
  let m' := afterHead maj mc m in
  blocks m' = blocks m /\ states m' = states m /\ clock m' = clock m /\
  nodes m' = nodes m /\ currentBundle m' = currentBundle m /\
  bundleDownloader m' = bundleDownloader m /\
  head m' = (if rootChanged (head m) mc then Some maj else head m) /\
  published m' =
  published m ++ (if rootChanged (head m) mc then [Some maj] else []).
Proof.
  unfold afterHead. destruct (rootChanged (head m) mc).
  - rewrite published_record.
    change (published (set_head (Some maj)
                         (records (finalityCalls (Ready (nodes m))) m)))
      with (published (records (finalityCalls (Ready (nodes m))) m)).
    rewrite published_finalityCalls. repeat split; reflexivity.
  - rewrite published_finalityCalls, app_nil_r. repeat split; reflexivity.
Qed.

(** One finality check after a successful aggregation, field by field. *)
Lemma checkFinality_step (maj : Finality) (mc : Checkpoint) (m : Majority) :
  CheckpointsMajority (reports (Ready (nodes m))) = Ok (Some maj) ->
  Finalized maj = Some mc ->
  let r := checkFinality CheckpointsMajority m in
  blocks (snd r) = blocks m /\ states (snd r) = states m /\
  clock (snd r) = clock m /\ nodes (snd r) = nodes m /\
  bundleDownloader (snd r) = bundleDownloader m /\
  head (snd r) = (if rootChanged (head m) mc then Some maj else head m) /\
  published (snd r) =
  published m ++ (if rootChanged (head m) mc then [Some maj] else []) /\
  (rootChanged (currentBundle m) mc = false ->
   fst r = Return tt /\ currentBundle (snd r) = currentBundle m) /\
  (rootChanged (currentBundle m) mc = true ->
   fst r = fst (updateServingCheckpoint (Some maj) m) /\
   currentBundle (snd r) =
   match fst r with Return _ => Some maj | _ => currentBundle m end).
Proof.
  intros HA HM r. subst r. rewrite (checkFinality_run maj mc m HA HM).
  destruct (afterHead_frame maj mc m) as (Fb & Fs & Fc & Fn & Fcb & Fd & Fh & Fp).
  destruct (rootChanged (currentBundle m) mc) eqn:E.
  - destruct (updateServingCheckpoint_frame (Some maj) (afterHead maj mc m))
      as (Ub & Us & Uc & Un & Uh & Ud).
    rewrite Ub, Us, Uc, Un, Uh, Ud, updateServingCheckpoint_published.
    repeat split; try congruence.
    + apply updateServingCheckpoint_reads; assumption.
    + pose proof (updateServingCheckpoint_failure_keeps (Some maj)
                    (afterHead maj mc m)) as Hk.
      pose proof (updateServingCheckpoint_assigns maj mc (afterHead maj mc m) HM)
        as Hok.
      destruct (fst (updateServingCheckpoint (Some maj) (afterHead maj mc m)))
        as [[]| |].
      * now apply Hok.
      * rewrite Hk by discriminate. assumption.
      * rewrite Hk by discriminate. assumption.
  - simpl. repeat split; try congruence.
Qed.

(** C3: after a successful aggregation, the finality check replaces the head
    by the majority and publishes one [finality_head_updated] event exactly
    when the majority's finalized root differs from the head's (or the head
    holds none); with equal roots the head stays and nothing is published.
    Epochs play no part: a majority of a lower epoch and a new root replaces
    the head. *)
Theorem checkFinality_head_by_root (maj : Finality) (mc : Checkpoint)
  (m : Majority) :
  CheckpointsMajority (reports (Ready (nodes m))) = Ok (Some maj) ->
  Finalized maj = Some mc ->
  let m' := snd (checkFinality CheckpointsMajority m) in
  (finalizedRoot (head m) <> Some (Root mc) ->
   head m' = Some maj /\ published m' = published m ++ [Some maj]) /\
  (finalizedRoot (head m) = Some (Root mc) ->
   head m' = head m /\ published m' = published m) /\
  (forall hc j,
     head m = Some {| Finalized := Some hc; Justified := j |} ->
     Epoch mc < Epoch hc -> Root mc <> Root hc ->
     head m' = Some maj /\ published m' = published m ++ [Some maj]).
Proof.
  intros HA HM m'.
  destruct (checkFinality_step maj mc m HA HM) as (_ & _ & _ & _ & _ & Hh & Hp & _).
  fold m' in Hh, Hp.
  assert (Hyes : finalizedRoot (head m) <> Some (Root mc) ->
                 head m' = Some maj /\ published m' = published m ++ [Some maj]).
  { intros Hd. apply rootChanged_true in Hd. rewrite Hd in Hh, Hp. auto. }
  repeat split.
  - now apply Hyes.
  - now apply Hyes.
  - apply rootChanged_false in H. rewrite H in Hh. assumption.
  - apply rootChanged_false in H. rewrite H, app_nil_r in Hp. assumption.
  - apply Hyes. rewrite H. simpl. congruence.
  - apply Hyes. rewrite H. simpl. congruence.
Qed.

End Tick.

(** ** Frames *)

Section Preserves.

Context (R : Majority -> Majority -> Prop) `{Frame R}.

Lemma preserves_ret {A} (a : A) : preserves R (ret a).
Proof. intros m. apply frame_refl. Qed.

Lemma preserves_fail {A} (e : error) : preserves R (@fail A e).
Proof. intros m. apply frame_refl. Qed.

Lemma preserves_panic {A} : preserves R (@panic A).
Proof. intros m. apply frame_refl. Qed.

Lemma preserves_gets {A} (f : Majority -> A) : preserves R (gets f).
Proof. intros m. apply frame_refl. Qed.

Lemma preserves_try {A} (r : result A) : preserves R (try r).
Proof. destruct r; [apply preserves_ret | apply preserves_fail]. Qed.

Lemma preserves_deref {A} (p : option A) : preserves R (deref p).
Proof. destruct p; [apply preserves_ret | apply preserves_panic]. Qed.

Lemma preserves_modify (f : Majority -> Majority) :
  (forall m, R m (f m)) -> preserves R (modify f).
Proof. intros Hf m. apply Hf. Qed.

Lemma preserves_bind {A B} (c : M A) (k : A -> M B) :
  preserves R c -> (forall a, preserves R (k a)) -> preserves R (bind c k).
Proof.
  intros Hc Hk m. unfold bind. specialize (Hc m).
  destruct (c m) as [[a| |] m1]; simpl in *; auto.
  eapply frame_trans; [exact Hc | apply Hk].
Qed.

Lemma preserves_finalized (checkpoint : option Finality) :
  preserves R (finalized checkpoint).
Proof.
  unfold finalized. apply preserves_bind; intros; apply preserves_deref.
Qed.

End Preserves.

(** Walks a method body: binds, branches, and the primitives above; what is
    left are the effects and assignments the body makes. *)
Ltac frame_step :=
  match goal with
  | |- preserves _ (bind _ _) =>
      apply @preserves_bind; [typeclasses eauto | | intros ?]
  | |- preserves _ (ret _) => apply @preserves_ret; typeclasses eauto
  | |- preserves _ (fail _) => apply @preserves_fail; typeclasses eauto
  | |- preserves _ panic => apply @preserves_panic; typeclasses eauto
  | |- preserves _ (gets _) => apply @preserves_gets; typeclasses eauto
  | |- preserves _ (try _) => apply @preserves_try; typeclasses eauto
  | |- preserves _ (deref _) => apply @preserves_deref; typeclasses eauto
  | |- preserves _ (finalized _) => apply @preserves_finalized; typeclasses eauto
  | |- preserves _ (match ?x with _ => _ end) => destruct x
  | |- preserves _ (if ?x then _ else _) => destruct x
  | |- preserves _ (let _ := _ in _) => cbv zeta
  end.

Ltac frame_walk := repeat frame_step.

#[local] Instance sameViews_frame : Frame sameViews.
Proof.
  split; unfold sameViews.
  - auto.
  - intros m1 m2 m3 [] []. split; congruence.
Qed.

Lemma sameViews_effect (e : Effect) : preserves sameViews (effect e).
Proof. intros m. split; reflexivity. Qed.

Lemma sameViews_reads :
  (forall r, preserves sameViews (blocks_GetByRoot r)) /\
  (forall s, preserves sameViews (blocks_GetBySlot s)) /\
  (forall s, preserves sameViews (blocks_GetByStateRoot s)) /\
  (forall s, preserves sameViews (states_GetByStateRoot s)).
Proof.
  repeat split; intros; apply @preserves_bind; try typeclasses eauto;
    intros; try apply sameViews_effect; apply @preserves_gets; typeclasses eauto.
Qed.

(** ** Head and serving view across ticks *)

Lemma servable_reads (m1 m2 : Majority) (root : Z) :
  blocks m1 = blocks m2 -> states m1 = states m2 -> clock m1 = clock m2 ->
  servable m1 root -> servable m2 root.
Proof.
  intros Hb Hs Hc (b & sr & st & s & H). exists b, sr, st, s.
  now rewrite <- Hb, <- Hs, <- Hc.
Qed.

Lemma updateServingCheckpoint_fails (C : Finality) (cp : Checkpoint) (m : Majority) :
  Finalized C = Some cp ->
  ~ servable m (Root cp) ->
  exists e, fst (updateServingCheckpoint (Some C) m) = Fail e.
Proof.
  intros HC Hno.
  pose proof (updateServingCheckpoint_run C cp m HC) as H. simpl in H.
  pose proof (updateServingCheckpoint_success C cp m HC) as [Hs _].
  destruct (Store.GetByRoot _ _ _) as [[b|]|e]; try (destruct H; eauto; fail).
  destruct (block_StateRoot b) as [sr|e]; try (destruct H; eauto; fail).
  destruct (Store.StateGetByStateRoot _ _ _) as [[st|]|e];
    try (destruct H; eauto; fail).
  destruct (block_Slot b) as [s|e]; try (destruct H; eauto; fail).
  destruct (s mod 32 =? 0); destruct H; eauto.
  exfalso. auto.
Qed.

Section Serving.

Variable CheckpointsMajority : list (option Finality) -> result (option Finality).

(** When the aggregation fails, or hands back a nil majority or one without a
    finalized checkpoint, the check ends before the serving update. *)
Lemma checkFinality_no_majority (m : Majority) :
  (forall maj mc, CheckpointsMajority (reports (Ready (nodes m))) = Ok (Some maj) ->
                  Finalized maj <> Some mc) ->
  currentBundle (tick CheckpointsMajority m) = currentBundle m /\
  fst (checkFinality CheckpointsMajority m) <> Return tt.
Proof.
  intros Hno. unfold tick, checkFinality, bind, gets.
  rewrite collectFinality_run.
  destruct (CheckpointsMajority (reports (Ready (nodes m)))) as [[maj|]|e];
    simpl; try (split; [reflexivity|discriminate]).
  - destruct (Finalized maj) as [mc|] eqn:HM.
    + exfalso. apply (Hno maj mc); auto.
    + unfold rootDiffers, finalized, deref, bind, ret, panic. simpl. rewrite HM.
      destruct (head m) as [[[hc|] j]|]; simpl; rewrite ?HM;
        (split; [reflexivity|discriminate]).
  - unfold rootDiffers, finalized, deref, bind, ret, panic. simpl.
    destruct (head m) as [[[hc|] j]|]; simpl;
      (split; [reflexivity|discriminate]).
Qed.


Lemma finalizedRoot_some (maj : Finality) (mc : Checkpoint) :
  Finalized maj = Some mc -> finalizedRoot (Some maj) = Some (Root mc).
Proof. destruct maj as [[c|] j]; simpl; congruence. Qed.

Lemma tick_stuck (maj : Finality) (mc : Checkpoint) (m0 m : Majority) :
  CheckpointsMajority (reports (Ready (nodes m0))) = Ok (Some maj) ->
  Finalized maj = Some mc ->
  finalizedRoot (currentBundle m0) <> Some (Root mc) ->
  ~ servable m0 (Root mc) ->
  stuck maj mc m0 m -> stuck maj mc m0 (tick CheckpointsMajority m).
Proof.
  intros HA HM Hcb Hno (Sh & Sc & Sp & Sb & Ss & Sk & Sn).
  rewrite <- Sn in HA.
  destruct (checkFinality_step CheckpointsMajority maj mc m HA HM)
    as (Fb & Fs & Fc & Fn & _ & Fh & Fp & _ & Fu).
  fold (tick CheckpointsMajority m) in Fb, Fs, Fc, Fn, Fh, Fp, Fu.
  assert (Hsame : rootChanged (head m) mc = false).
  { apply rootChanged_false. rewrite Sh. now apply finalizedRoot_some. }
  rewrite Hsame in Fh, Fp. rewrite app_nil_r in Fp.
  assert (Hdiff : rootChanged (currentBundle m) mc = true).
  { apply rootChanged_true. now rewrite Sc. }
  destruct (Fu Hdiff) as [Fr Fcur].
  assert (Hno' : ~ servable m (Root mc)).
  { intros Hs. apply Hno. apply (servable_reads m); auto. }
  destruct (updateServingCheckpoint_fails maj mc m HM Hno') as [e He].
  rewrite He in Fr. rewrite Fr in Fcur.
  unfold stuck. repeat split; congruence.
Qed.

(** C10: in a finality check whose majority root differs from the root of
    the head and from the root of [currentBundle], a serving update that fails
    does not undo the head update made before it: the head holds the majority,
    the event stays published, [currentBundle] is as before, the check
    returns the error of the serving update, and the two views name different
    roots; they still do after any number of further checks that meet the
    same nodes and the same stores. *)
Theorem checkFinality_head_survives_serving_failure (maj : Finality)
  (mc : Checkpoint) (m : Majority) :
  CheckpointsMajority (reports (Ready (nodes m))) = Ok (Some maj) ->
  Finalized maj = Some mc ->
  finalizedRoot (head m) <> Some (Root mc) ->
  finalizedRoot (currentBundle m) <> Some (Root mc) ->
  ~ servable m (Root mc) ->
  let r := checkFinality CheckpointsMajority m in
  (exists e, fst r = Fail e /\
             fst (updateServingCheckpoint (Some maj) m) = Fail e) /\
  head (snd r) = Some maj /\
  published (snd r) = published m ++ [Some maj] /\
  currentBundle (snd r) = currentBundle m /\
  finalizedRoot (head (snd r)) <> finalizedRoot (currentBundle (snd r)) /\
  (forall n, head (Nat.iter n (tick CheckpointsMajority) (snd r)) = Some maj /\
             currentBundle (Nat.iter n (tick CheckpointsMajority) (snd r)) = currentBundle m /\
             published (Nat.iter n (tick CheckpointsMajority) (snd r)) = published m ++ [Some maj]).
Proof.
  intros HA HM Hh Hcb Hno r.
  assert (Hfirst :
    (exists e, fst r = Fail e /\
               fst (updateServingCheckpoint (Some maj) m) = Fail e) /\
    head (snd r) = Some maj /\
    published (snd r) = published m ++ [Some maj] /\
    currentBundle (snd r) = currentBundle m /\
    blocks (snd r) = blocks m /\ states (snd r) = states m /\
    clock (snd r) = clock m /\ nodes (snd r) = nodes m).
  { destruct (checkFinality_step CheckpointsMajority maj mc m HA HM)
      as (Fb & Fs & Fc & Fn & _ & Fh & Fp & _ & Fu). fold r in Fb, Fs, Fc, Fn, Fh, Fp, Fu.
    apply rootChanged_true in Hh, Hcb. rewrite Hh in Fh, Fp.
    destruct (Fu Hcb) as [Fr Fcur].
    destruct (updateServingCheckpoint_fails maj mc m HM Hno) as [e He].
    rewrite He in Fr. rewrite Fr in Fcur. repeat split; eauto. }
  destruct Hfirst as (He & H1 & H2 & H3 & H4 & H5 & H6 & H7).
  split; [assumption|]. split; [assumption|]. split; [assumption|].
  split; [assumption|]. split.
  - rewrite H1, H3, (finalizedRoot_some maj mc HM). congruence.
  - intros n.
    assert (Hinv : stuck maj mc m (snd r)).
    { unfold stuck. rewrite H1, H2, H3, H4, H5, H6, H7. auto 10. }
    induction n as [|n IH]; simpl.
    + unfold stuck in Hinv. tauto.
    + assert (Hn : stuck maj mc m (Nat.iter n (tick CheckpointsMajority) (snd r))).
      { clear IH. induction n as [|k IHk]; simpl; auto.
        apply tick_stuck; auto. }
      apply tick_stuck in Hn; auto. unfold stuck in Hn. tauto.
Qed.

End Serving.

(** ** The subscribers and the genesis check leave both views alone *)

Create HintDb frame discriminated.

Lemma sameViews_GetByRoot r : preserves sameViews (blocks_GetByRoot r).
Proof. apply sameViews_reads. Qed.
Lemma sameViews_GetBySlot s : preserves sameViews (blocks_GetBySlot s).
Proof. apply sameViews_reads. Qed.
Lemma sameViews_GetByStateRoot s : preserves sameViews (blocks_GetByStateRoot s).
Proof. apply sameViews_reads. Qed.
Lemma sameViews_StateGet s : preserves sameViews (states_GetByStateRoot s).
Proof. apply sameViews_reads. Qed.
Lemma sameViews_set_blocks b : preserves sameViews (modify (set_blocks b)).
Proof. intros m. split; reflexivity. Qed.
Lemma sameViews_set_bundleDownloader d :
  preserves sameViews (modify (set_bundleDownloader d)).
Proof. intros m. split; reflexivity. Qed.

#[local] Hint Resolve sameViews_effect sameViews_GetByRoot sameViews_GetBySlot
  sameViews_GetByStateRoot sameViews_StateGet sameViews_set_blocks
  sameViews_set_bundleDownloader : frame.

Ltac frame_solve := frame_walk; auto with frame.




Section Subscribers.

Variable CalculateBlockExpiration : Z -> Z -> Z -> Z -> Z -> Z -> Z.




End Subscribers.

(** ** Every step of the provider *)

Section System.

Variable CheckpointsMajority : list (option Finality) -> result (option Finality).
Variable CalculateBlockExpiration : Z -> Z -> Z -> Z -> Z -> Z -> Z.


End System.

(** ** The historical back-fill *)

Section Backfill.

Variable CalculateBlockExpiration : Z -> Z -> Z -> Z -> Z -> Z -> Z.

Lemma fetchHistoricalSlot_run upstream sp genesis blockOf currentSlot i m :
  let s := slotOfTurn currentSlot (SlotsPerEpoch sp) i in
  (s <> 0 -> serves upstream blockOf s) ->
  fetchHistoricalSlot CalculateBlockExpiration upstream sp genesis currentSlot i m
  = (Return tt, backfillSlot CalculateBlockExpiration upstream sp genesis blockOf m s).
Proof.
  intros s Hserve. unfold fetchHistoricalSlot, backfillSlot.
  fold (slotOfTurn currentSlot (SlotsPerEpoch sp) i). fold s. clearbody s.
  destruct (s =? 0) eqn:E0; [reflexivity|].
  apply Z.eqb_neq in E0. destruct (Hserve E0) as (Hf & [sr Hsr] & Hadd).
  destruct (Hadd (blocks m) (clock m)
              (CalculateBlockExpiration (clock m) s (SecondsPerSlot sp)
                 (wrap64 (SlotsPerEpoch sp)) (GenesisTime genesis)
                 (3 * 24 * Hour))) as [store' Hs].
  unfold blocks_GetBySlot, effect, modify, bind, gets, try, ret, fail.
  rewrite !blocks_record, !clock_record.
  destruct (Store.GetBySlot (blocks m) (clock m) s) as [[b|]|e];
    [reflexivity| |];
    rewrite Hf; cbv beta iota; rewrite Hsr; cbv beta iota;
    rewrite !blocks_record, !clock_record, Hs; reflexivity.
Qed.

Lemma fetchHistoricalLoop_run upstream sp genesis blockOf currentSlot n i m :
  (forall s, In s (map (slotOfTurn currentSlot (SlotsPerEpoch sp)) (turns n i)) ->
             s <> 0 -> serves upstream blockOf s) ->
  fetchHistoricalLoop CalculateBlockExpiration upstream sp genesis currentSlot n i m
  = (Return tt,
     backfill CalculateBlockExpiration upstream sp genesis blockOf
       (map (slotOfTurn currentSlot (SlotsPerEpoch sp)) (turns n i)) m).
Proof.
  revert i m. induction n as [|n IH]; intros i m Hserve; simpl.
  - reflexivity.
  - unfold bind.
    rewrite (fetchHistoricalSlot_run upstream sp genesis blockOf).
    + apply IH. intros s Hin. apply Hserve. simpl. auto.
    + apply Hserve. simpl. auto.
Qed.

(** Without wrap-around the slots are the numbers
    [E * SlotsPerEpoch - i * SlotsPerEpoch] for [i] from 1 to 9. *)
Lemma historicalSlots_exact (E spe : Z) :
  0 < spe -> 9 <= E -> E * spe < 2 ^ 64 ->
  historicalSlots E spe =
  map (fun i => E * spe - i * spe) [1; 2; 3; 4; 5; 6; 7; 8; 9].
Proof.
  intros Hspe HE Hfit. unfold historicalSlots, slotOfTurn, wrap64.
  change (turns 9 1) with [1; 2; 3; 4; 5; 6; 7; 8; 9].
  assert (Hs : spe mod 2 ^ 64 = spe) by (apply Z.mod_small; nia).
  rewrite Hs.
  assert (Hc : (E * spe) mod 2 ^ 64 = E * spe) by (apply Z.mod_small; nia).
  rewrite Hc.
  assert (Hi : forall i, 1 <= i <= 9 ->
            (E * spe - (i * spe) mod 2 ^ 64) mod 2 ^ 64 = E * spe - i * spe).
  { intros i Hi. rewrite (Z.mod_small (i * spe)) by nia.
    apply Z.mod_small. nia. }
  cbv [map]. rewrite !Hi by lia. reflexivity.
Qed.

Lemma RandomNode_In (ns : Nodes) (pick : nat) (n : Node) :
  RandomNode ns pick = Ok n -> In n ns.
Proof.
  unfold RandomNode.
  destruct (nth_error ns (Nat.modulo pick (List.length ns))) as [x|] eqn:E;
    [|discriminate].
  intros [= <-]. eapply nth_error_In; eauto.
Qed.

(** The handler, once a data provider answered with its spec and genesis, is
    the back-fill over the slots of [historicalSlots]. *)
Lemma fetchHistoricalCheckpoints_run (pick : nat) (checkpoint : Finality)
  (cp : Checkpoint) (upstream : Node) (sp : Spec) (genesis : Genesis)
  (blockOf : Z -> Block) (m : Majority) :
  RandomNode (DataProviders (Ready (nodes m))) pick = Ok upstream ->
  GetSpec (Beacon upstream) = Ok sp ->
  GetGenesis (Beacon upstream) = Ok genesis ->
  Finalized checkpoint = Some cp ->
  (forall s, In s (historicalSlots (Epoch cp) (SlotsPerEpoch sp)) ->
             s <> 0 -> serves upstream blockOf s) ->
  fetchHistoricalCheckpoints CalculateBlockExpiration pick (Some checkpoint) m
  = (Return tt,
     backfill CalculateBlockExpiration upstream sp genesis blockOf
       (historicalSlots (Epoch cp) (SlotsPerEpoch sp))
       (record (Upstream (Name upstream) ReqGenesis)
          (record (Upstream (Name upstream) ReqSpec) m))).
Proof.
  intros Hup Hsp Hgen Hcp Hserve.
  unfold fetchHistoricalCheckpoints, finalized, bind, gets, effect, modify,
    deref, try, ret.
  rewrite Hup. cbv beta iota. rewrite Hsp. cbv beta iota.
  rewrite Hgen. cbv beta iota. rewrite Hcp. cbv beta iota.
  apply fetchHistoricalLoop_run. exact Hserve.
Qed.

End Backfill.

(** ** The read side *)

(** C9: [GetBeaconStateBySlot] and [GetBeaconStateByRoot] look the block up
    first, by slot and by root, and fail with "block not found" when the
    block store has none; with the block found they return what the state
    store answers for that block's [StateRoot()]. *)
Theorem GetBeaconState_through_block (m : Majority) :
  (forall slot,
     Store.GetBySlot (blocks m) (clock m) slot = Ok None ->
     fst (GetBeaconStateBySlot slot m) = Fail "block not found") /\
  (forall root,
     Store.GetByRoot (blocks m) (clock m) root = Ok None ->
     fst (GetBeaconStateByRoot root m) = Fail "block not found") /\
  (forall slot block stateRoot,
     Store.GetBySlot (blocks m) (clock m) slot = Ok (Some block) ->
     block_StateRoot block = Ok stateRoot ->
     fst (GetBeaconStateBySlot slot m) =
     returned (Store.StateGetByStateRoot (states m) (clock m) stateRoot)) /\
  (forall root block stateRoot,
     Store.GetByRoot (blocks m) (clock m) root = Ok (Some block) ->
     block_StateRoot block = Ok stateRoot ->
     fst (GetBeaconStateByRoot root m) =
     returned (Store.StateGetByStateRoot (states m) (clock m) stateRoot)).
Proof.
  unfold GetBeaconStateBySlot, GetBeaconStateByRoot, GetBlockBySlot,
    GetBlockByRoot, found, blocks_GetBySlot, blocks_GetByRoot,
    states_GetByStateRoot, effect, modify, bind, gets, try, ret, fail.
  repeat split.
  - intros slot Hb. rewrite blocks_record, clock_record, Hb. reflexivity.
  - intros root Hb. rewrite blocks_record, clock_record, Hb. reflexivity.
  - intros slot block sr Hb Hsr. rewrite blocks_record, clock_record, Hb.
    cbv beta iota. rewrite Hsr. cbv beta iota.
    change (states (record (ReadState sr) (record (ReadBlockBySlot slot) m)))
      with (states m).
    rewrite !clock_record.
    destruct (Store.StateGetByStateRoot (states m) (clock m) sr); reflexivity.
  - intros root block sr Hb Hsr. rewrite blocks_record, clock_record, Hb.
    cbv beta iota. rewrite Hsr. cbv beta iota.
    change (states (record (ReadState sr) (record (ReadBlockByRoot root) m)))
      with (states m).
    rewrite !clock_record.
    destruct (Store.StateGetByStateRoot (states m) (clock m) sr); reflexivity.
Qed.

(** ** The genesis check *)

Lemma upstreamCalls_records (es : list Effect) (m : Majority) :
  upstreamCalls (records es m) =
  upstreamCalls m ++
  flat_map (fun e => match e with Upstream n r => [(n, r)] | _ => [] end) es.
Proof. unfold upstreamCalls, records. simpl. apply flat_map_app. Qed.

Lemma upstreamCalls_reads (es : list Effect) (m : Majority) :
  forallb isStoreRead es = true ->
  upstreamCalls (records es m) = upstreamCalls m.
Proof.
  intros Hes. rewrite upstreamCalls_records.
  replace (flat_map _ es) with (@nil (string * Request)); [apply app_nil_r|].
  induction es as [|e es IH]; simpl in *; auto.
  apply andb_prop in Hes as [He Hes]. rewrite <- (IH Hes).
  destruct e; simpl in *; try discriminate; reflexivity.
Qed.

(** The opening test reads the stores and nothing else, and answers whether
    the genesis bundle is held. *)
Lemma genesisStored_run (m : Majority) :
  exists (stored : bool) (es : list Effect),
    genesisStored m = (Return stored, records es m) /\
    forallb isStoreRead es = true /\
    (stored = true <-> holdsGenesis m).
Proof.
  unfold genesisStored, holdsGenesis, blocks_GetBySlot, states_GetByStateRoot,
    effect, modify, bind, gets, ret.
  rewrite blocks_record, clock_record.
  destruct (Store.GetBySlot (blocks m) (clock m) 0) as [[b|]|e] eqn:Hb.
  - destruct (block_StateRoot b) as [sr|e] eqn:Hsr.
    + change (states (record (ReadState sr) (record (ReadBlockBySlot 0) m)))
        with (states m).
      rewrite !clock_record.
      destruct (Store.StateGetByStateRoot (states m) (clock m) sr)
        as [[st|]|e] eqn:Hst.
      * exists true, [ReadBlockBySlot 0; ReadState sr].
        split; [now rewrite <- !records_record, records_nil|].
        split; [reflexivity|]. split; [|reflexivity].
        intros _. exists b, sr, st. auto.
      * exists false, [ReadBlockBySlot 0; ReadState sr].
        split; [now rewrite <- !records_record, records_nil|].
        split; [reflexivity|]. split; [discriminate|].
        intros (b' & sr' & st' & H1 & H2 & H3). congruence.
      * exists false, [ReadBlockBySlot 0; ReadState sr].
        split; [now rewrite <- !records_record, records_nil|].
        split; [reflexivity|]. split; [discriminate|].
        intros (b' & sr' & st' & H1 & H2 & H3). congruence.
    + exists false, [ReadBlockBySlot 0].
      split; [now rewrite <- !records_record, records_nil|].
      split; [reflexivity|]. split; [discriminate|].
      intros (b' & sr' & st' & H1 & H2 & H3). congruence.
  - exists false, [ReadBlockBySlot 0].
    split; [now rewrite <- !records_record, records_nil|].
    split; [reflexivity|]. split; [discriminate|].
    intros (b' & sr' & st' & H1 & H2 & H3). congruence.
  - exists false, [ReadBlockBySlot 0].
    split; [now rewrite <- !records_record, records_nil|].
    split; [reflexivity|]. split; [discriminate|].
    intros (b' & sr' & st' & H1 & H2 & H3). congruence.
Qed.

Lemma AddToQueue_enqueues (d d' : BundleDownloader) (root : Z) :
  AddToQueue d root = Ok d' -> In root (queue d').
Proof.
  unfold AddToQueue, ExistsInQueue.
  destruct (existsb (Z.eqb root) (queue d)) eqn:E.
  - intros [= <-]. apply existsb_exists in E as (x & Hin & Hx).
    apply Z.eqb_eq in Hx. now subst.
  - destruct (_ <? _)%nat; [|discriminate].
    intros [= <-]. simpl. apply in_or_app. right. now left.
Qed.

Lemma upstreamCalls_record (e : Effect) (m : Majority) :
  upstreamCalls (record e m) =
  upstreamCalls m ++ match e with Upstream n r => [(n, r)] | _ => [] end.
Proof.
  unfold upstreamCalls, record. simpl. rewrite flat_map_app. simpl.
  now rewrite app_nil_r.
Qed.

Lemma bind_Return {A B} (c : M A) (k : A -> M B) (m m' : Majority) (a : A) :
  c m = (Return a, m') -> bind c k m = k a m'.
Proof. intros Hc. unfold bind. now rewrite Hc. Qed.

(** C8: [checkGenesis] returns at once, with no upstream call and nothing
    queued, when the block store holds a slot-0 block and the state store
    that block's state; otherwise it fails when no node is ready; otherwise it
    fetches the block "genesis" from a randomly picked ready node, takes its
    root and, unless the downloader already has that root in its queue, adds
    it to the queue. *)
Theorem checkGenesis_cases (pick : nat) (m : Majority) :
  let r := checkGenesis pick m in
  (holdsGenesis m ->
   fst r = Return tt /\
   upstreamCalls (snd r) = upstreamCalls m /\
   bundleDownloader (snd r) = bundleDownloader m) /\
  (~ holdsGenesis m -> Ready (nodes m) = [] ->
   fst r = Fail "no nodes ready" /\
   upstreamCalls (snd r) = upstreamCalls m /\
   bundleDownloader (snd r) = bundleDownloader m) /\
  (forall node genesisBlock root,
     ~ holdsGenesis m ->
     RandomNode (Ready (nodes m)) pick = Ok node ->
     FetchBlock (Beacon node) "genesis" = Ok (Some genesisBlock) ->
     block_Root genesisBlock = Ok root ->
     In node (Ready (nodes m)) /\
     upstreamCalls (snd r) = upstreamCalls m ++ [(Name node, ReqBlock "genesis")] /\
     (ExistsInQueue (bundleDownloader m) root = true ->
      fst r = Return tt /\ bundleDownloader (snd r) = bundleDownloader m) /\
     (ExistsInQueue (bundleDownloader m) root = false ->
      match AddToQueue (bundleDownloader m) root with
      | Ok d' =>
          fst r = Return tt /\ bundleDownloader (snd r) = d' /\ In root (queue d')
      | Err e => fst r = Fail e /\ bundleDownloader (snd r) = bundleDownloader m
      end)).
Proof.
  intros r. subst r.
  destruct (genesisStored_run m) as (stored & es & Hrun & Hes & Hiff).
  unfold checkGenesis. rewrite (bind_Return _ _ _ _ _ Hrun).
  split; [|split].
  - intros Hg. apply Hiff in Hg. subst stored. simpl.
    split; [reflexivity|]. split; [now apply upstreamCalls_reads | reflexivity].
  - intros Hg Hready.
    destruct stored; [exfalso; apply Hg, Hiff; reflexivity|].
    unfold bind, gets. simpl. rewrite Hready. simpl.
    split; [reflexivity|]. split; [now apply upstreamCalls_reads | reflexivity].
  - intros node gb root Hg Hpick Hfetch Hroot.
    destruct stored; [exfalso; apply Hg, Hiff; reflexivity|].
    pose proof (RandomNode_In _ _ _ Hpick) as Hin.
    split; [exact Hin|].
    assert (Hlen : (List.length (Ready (nodes m)) =? 0)%nat = false).
    { destruct (Ready (nodes m)); [destruct Hin | reflexivity]. }
    unfold bind, gets, effect, modify, try, deref, ret, fail.
    change (nodes (records es m)) with (nodes m).
    rewrite Hlen, Hpick. cbv beta iota. rewrite Hfetch. cbv beta iota.
    rewrite Hroot. cbv beta iota.
    change (bundleDownloader
              (record (Upstream (Name node) (ReqBlock "genesis")) (records es m)))
      with (bundleDownloader m).
    split; [|split].
    + destruct (ExistsInQueue (bundleDownloader m) root);
        [|destruct (AddToQueue (bundleDownloader m) root)]; simpl;
        rewrite ?upstreamCalls_record;
        try (change (upstreamCalls (set_bundleDownloader ?d ?x))
               with (upstreamCalls x));
        rewrite ?upstreamCalls_record, upstreamCalls_reads by assumption;
        reflexivity.
    + intros Hex. rewrite Hex. split; reflexivity.
    + intros Hex. rewrite Hex.
      destruct (AddToQueue (bundleDownloader m) root) as [d'|e] eqn:Hadd; simpl.
      * split; [reflexivity|]. split; [reflexivity|].
        eapply AddToQueue_enqueues; eauto.
      * split; reflexivity.
Qed.

(** ** Which reads touch the genesis entries *)

#[local] Instance sameSlotReads_frame : Frame sameSlotReads.
Proof.
  split; unfold sameSlotReads.
  - reflexivity.
  - intros m1 m2 m3 H12 H23. congruence.
Qed.

Lemma slotReads_record (e : Effect) (m : Majority) :
  slotReads (record e m) =
  slotReads m ++ match e with ReadBlockBySlot s => [s] | _ => [] end.
Proof.
  unfold slotReads, record. simpl. rewrite flat_map_app. simpl.
  now rewrite app_nil_r.
Qed.

Lemma sameSlotReads_effect (e : Effect) :
  match e with ReadBlockBySlot _ => False | _ => True end ->
  preserves sameSlotReads (effect e).
Proof.
  intros He m. unfold sameSlotReads, effect, modify. simpl.
  rewrite slotReads_record. destruct e; try contradiction; apply app_nil_r.
Qed.

Lemma sameSlotReads_GetByRoot r : preserves sameSlotReads (blocks_GetByRoot r).
Proof.
  apply @preserves_bind; [typeclasses eauto | now apply sameSlotReads_effect |].
  intros; apply @preserves_gets; typeclasses eauto.
Qed.

Lemma sameSlotReads_StateGet s : preserves sameSlotReads (states_GetByStateRoot s).
Proof.
  apply @preserves_bind; [typeclasses eauto | now apply sameSlotReads_effect |].
  intros; apply @preserves_gets; typeclasses eauto.
Qed.

Lemma sameSlotReads_set_head h : preserves sameSlotReads (modify (set_head h)).
Proof. intros m. reflexivity. Qed.

Lemma sameSlotReads_set_currentBundle c :
  preserves sameSlotReads (modify (set_currentBundle c)).
Proof. intros m. reflexivity. Qed.

Lemma sameSlotReads_set_bundleDownloader d :
  preserves sameSlotReads (modify (set_bundleDownloader d)).
Proof. intros m. reflexivity. Qed.

Lemma sameSlotReads_upstream n r : preserves sameSlotReads (effect (Upstream n r)).
Proof. now apply sameSlotReads_effect. Qed.

Lemma sameSlotReads_emit t c : preserves sameSlotReads (effect (Emit t c)).
Proof. now apply sameSlotReads_effect. Qed.

Lemma sameSlotReads_observe e :
  preserves sameSlotReads (effect (ObserveServingEpoch e)).
Proof. now apply sameSlotReads_effect. Qed.

Lemma sameSlotReads_collectFinality ns :
  preserves sameSlotReads (collectFinality ns).
Proof.
  intros m. rewrite collectFinality_run. unfold sameSlotReads, slotReads, records.
  simpl. rewrite flat_map_app.
  replace (flat_map _ (finalityCalls ns)) with (@nil Z); [apply app_nil_r|].
  induction ns; simpl; auto.
Qed.

#[local] Hint Resolve sameSlotReads_GetByRoot sameSlotReads_StateGet
  sameSlotReads_set_head sameSlotReads_set_currentBundle
  sameSlotReads_set_bundleDownloader sameSlotReads_upstream sameSlotReads_emit
  sameSlotReads_observe sameSlotReads_collectFinality : frame.

Lemma checkFinality_slotReads agg : preserves sameSlotReads (checkFinality agg).
Proof.
  unfold checkFinality, updateServingCheckpoint, rootDiffers,
    publishFinalityCheckpointHeadUpdated.
  frame_solve.
Qed.

(** [checkGenesis] asks the block store for slot 0 once. *)
Lemma checkGenesis_slotReads (pick : nat) (m : Majority) :
  slotReads (snd (checkGenesis pick m)) = slotReads m ++ [0].
Proof.
  assert (Hrest : forall stored,
    preserves sameSlotReads
      (if stored : bool then ret tt
       else
         ns <- gets nodes ;;
         let readyNodes := Ready ns in
         if (List.length readyNodes =? 0)%nat then fail "no nodes ready"
         else
           randomNode <- try (RandomNode readyNodes pick) ;;
           effect (Upstream (Name randomNode) (ReqBlock "genesis")) ;;
           genesisBlock <- try (FetchBlock (Beacon randomNode) "genesis") ;;
           genesisBlock <- deref genesisBlock ;;
           genesisBlockRoot <- try (block_Root genesisBlock) ;;
           d <- gets bundleDownloader ;;
           if ExistsInQueue d genesisBlockRoot then ret tt
           else
             d' <- try (AddToQueue d genesisBlockRoot) ;;
             modify (set_bundleDownloader d'))).
  { intros stored. frame_solve. }
  assert (Htest : forall m0,
    slotReads (snd (genesisStored m0)) = slotReads m0 ++ [0] /\
    exists stored, fst (genesisStored m0) = Return stored).
  { intros m0.
    unfold genesisStored, blocks_GetBySlot, states_GetByStateRoot, effect,
      modify, bind, gets, ret.
    rewrite blocks_record, clock_record.
    destruct (Store.GetBySlot (blocks m0) (clock m0) 0) as [[b|]|e]; simpl;
      rewrite ?slotReads_record; eauto.
    destruct (block_StateRoot b) as [sr|e]; simpl;
      rewrite ?slotReads_record; eauto.
    destruct (Store.StateGetByStateRoot _ _ sr) as [[st|]|e]; simpl;
      rewrite ?slotReads_record, ?app_nil_r; eauto. }
  destruct (Htest m) as (Hreads & stored & Hfst).
  unfold checkGenesis, bind at 1.
  destruct (genesisStored m) as [o m1]. simpl in Hreads, Hfst. subst o.
  rewrite <- Hreads. apply (Hrest stored m1).
Qed.

(** C4, what the code does: a finality check asks the block store for no
    slot at all, so it never reads the slot-0 entry, and [startGenesisLoop]
    reads it once, when its timer fires, and not again. *)
Theorem genesis_read_once_not_every_tick
  (agg : list (option Finality) -> result (option Finality))
  (timer : bool) (pick : nat) (m : Majority) :
  slotReads (snd (checkFinality agg m)) = slotReads m /\
  slotReads (snd (startGenesisLoop timer pick m)) =
  slotReads m ++ (if timer then [0] else []).
Proof.
  split; [apply checkFinality_slotReads|].
  unfold startGenesisLoop. destruct timer.
  - pose proof (checkGenesis_slotReads pick m) as H.
    destruct (checkGenesis pick m) as [[[]| |] m']; exact H.
  - simpl. now rewrite app_nil_r.
Qed.

(** ** Two sources for the slots of an epoch *)

(** C6: the back-fill works with the [SlotsPerEpoch] the upstream's
    [GetSpec] reports, while the alignment test of [updateServingCheckpoint]
    takes the slot modulo the constant 32 and reads nothing of the upstream
    nodes.  With an upstream that reports 8 slots per epoch, the back-fill asks
    for slot 792, which the alignment test would refuse. *)
Theorem slotsPerEpoch_upstream_or_32
  (calc : Z -> Z -> Z -> Z -> Z -> Z -> Z) (pick : nat) (checkpoint : Finality)
  (cp : Checkpoint) (upstream : Node) (sp : Spec) (genesis : Genesis)
  (blockOf : Z -> Block) (m : Majority) :
  RandomNode (DataProviders (Ready (nodes m))) pick = Ok upstream ->
  GetSpec (Beacon upstream) = Ok sp ->
  GetGenesis (Beacon upstream) = Ok genesis ->
  Finalized checkpoint = Some cp ->
  (forall s, In s (historicalSlots (Epoch cp) (SlotsPerEpoch sp)) ->
             s <> 0 -> serves upstream blockOf s) ->
  snd (fetchHistoricalCheckpoints calc pick (Some checkpoint) m)
  = backfill calc upstream sp genesis blockOf
      (map (slotOfTurn (wrap64 (Epoch cp * wrap64 (SlotsPerEpoch sp)))
              (SlotsPerEpoch sp)) [1; 2; 3; 4; 5; 6; 7; 8; 9])
      (record (Upstream (Name upstream) ReqGenesis)
         (record (Upstream (Name upstream) ReqSpec) m)) /\
  (forall ns,
     fst (updateServingCheckpoint (Some checkpoint) (set_nodes ns m)) =
     fst (updateServingCheckpoint (Some checkpoint) m)) /\
  (forall block stateRoot state blockSlot,
     Store.GetByRoot (blocks m) (clock m) (Root cp) = Ok (Some block) ->
     block_StateRoot block = Ok stateRoot ->
     Store.StateGetByStateRoot (states m) (clock m) stateRoot = Ok (Some state) ->
     block_Slot block = Ok blockSlot ->
     (fst (updateServingCheckpoint (Some checkpoint) m) = Return tt <->
      blockSlot mod 32 = 0)) /\
  historicalSlots 100 8 = [792; 784; 776; 768; 760; 752; 744; 736; 728] /\
  792 mod 32 <> 0.
Proof.
  intros Hup Hsp Hgen Hcp Hserve.
  split; [|split; [|split; [|split]]].
  - rewrite (fetchHistoricalCheckpoints_run calc pick checkpoint cp upstream sp
               genesis blockOf m Hup Hsp Hgen Hcp Hserve).
    reflexivity.
  - intros ns. apply updateServingCheckpoint_reads; reflexivity.
  - intros b sr st s Hb Hsr Hst Hs.
    rewrite (updateServingCheckpoint_success checkpoint cp m Hcp).
    unfold servable. split.
    + intros (b' & sr' & st' & s' & Hb' & Hsr' & Hst' & Hs' & Hal). congruence.
    + intros Hal. exists b, sr, st, s. auto.
  - reflexivity.
  - discriminate.
Qed.

(** ** The runs *)

Module ScenarioFacts.

Import Scenario.

Example first_tick_blocked :
  fst (checkFinality Checkpoints.Majority started) = Fail "block not found" /\
  head afterFirstTick = Some checkpointAA /\
  currentBundle afterFirstTick = currentBundle started /\
  published afterFirstTick = [Some checkpointAA].
Proof. vm_compute. auto. Qed.

Example second_tick_serves :
  fst (checkFinality Checkpoints.Majority bundled) = Return tt /\
  currentBundle serving = Some checkpointAA /\
  published serving = [Some checkpointAA].
Proof. vm_compute. auto. Qed.



Lemma updateServingCheckpoint_gate_witness :
  Finalized checkpointAA = Some {| Epoch := 100; Root := 0xAA |} /\
  (fst (updateServingCheckpoint (Some checkpointAA) bundled) = Return tt <->
   servable bundled 0xAA).
Proof.
  split; [reflexivity|].
  destruct (updateServingCheckpoint_gate checkpointAA
              {| Epoch := 100; Root := 0xAA |} bundled eq_refl)
    as (_ & _ & _ & _ & H & _).
  exact H.
Defined.

Lemma updateServingCheckpoint_same_is_noop_witness :
  currentBundle serving = Some checkpointAA /\
  currentBundle (snd (updateServingCheckpoint (Some checkpointAA) serving)) =
  currentBundle serving /\
  blocks (snd (updateServingCheckpoint (Some checkpointAA) serving)) =
  blocks serving /\
  states (snd (updateServingCheckpoint (Some checkpointAA) serving)) =
  states serving.
Proof.
  split; [reflexivity|].
  exact (updateServingCheckpoint_same_is_noop (Some checkpointAA) serving eq_refl).
Defined.

Lemma checkFinality_head_by_root_witness :
  Checkpoints.Majority (reports (Ready (nodes started))) = Ok (Some checkpointAA) /\
  finalizedRoot (head started) <> Some 0xAA /\
  head afterFirstTick = Some checkpointAA /\
  published afterFirstTick = published started ++ [Some checkpointAA].
Proof.
  split; [reflexivity|].
  assert (Hd : finalizedRoot (head started) <> Some 0xAA) by discriminate.
  split; [exact Hd|].
  destruct (checkFinality_head_by_root Checkpoints.Majority checkpointAA
              {| Epoch := 100; Root := 0xAA |} started eq_refl eq_refl)
    as (H & _).
  exact (H Hd).
Defined.

Lemma checkFinality_head_survives_serving_failure_witness :
  ~ servable started 0xAA /\
  head afterFirstTick = Some checkpointAA /\
  currentBundle afterFirstTick = currentBundle started /\
  head (Nat.iter 3 (tick Checkpoints.Majority) afterFirstTick) = Some checkpointAA.
Proof.
  assert (Hno : ~ servable started 0xAA).
  { intros (b & sr & st & sl & Hb & _). vm_compute in Hb. discriminate. }
  split; [exact Hno|].
  destruct (checkFinality_head_survives_serving_failure Checkpoints.Majority
              checkpointAA {| Epoch := 100; Root := 0xAA |} started
              eq_refl eq_refl ltac:(discriminate) ltac:(discriminate) Hno)
    as (_ & Hh & _ & Hc & _ & Hn).
  split; [exact Hh|]. split; [exact Hc|].
  exact (proj1 (Hn 3%nat)).
Defined.

Lemma upstream1_serves (s : Z) :
  In s (historicalSlots 100 32) -> s <> 0 -> serves upstream1 blockAt s.
Proof.
  intros Hin _.
  assert (Hadd : forall store now expires_at,
            exists store', Store.Add store now (blockAt s) expires_at = Ok store').
  { intros. eapply Add_indexable; reflexivity. }
  change (historicalSlots 100 32)
    with [3168; 3136; 3104; 3072; 3040; 3008; 2976; 2944; 2912] in Hin.
  simpl in Hin.
  repeat (destruct Hin as [<-|Hin];
          [split; [vm_compute; reflexivity | split; [eexists; reflexivity | exact Hadd]]|]).
  destruct Hin.
Qed.

Example backfill_requests :
  fst (fetchHistoricalCheckpoints expireAfterTtl 0 (Some checkpointAA) afterFirstTick)
  = Return tt /\
  upstreamCalls backfilled =
  upstreamCalls afterFirstTick ++
  [("upstream-1", ReqSpec); ("upstream-1", ReqGenesis);
   ("upstream-1", ReqBlock "3168"); ("upstream-1", ReqBlock "3136");
   ("upstream-1", ReqBlock "3104"); ("upstream-1", ReqBlock "3072");
   ("upstream-1", ReqBlock "3040"); ("upstream-1", ReqBlock "3008");
   ("upstream-1", ReqBlock "2976"); ("upstream-1", ReqBlock "2944");
   ("upstream-1", ReqBlock "2912")] /\
  map Store.be_slot (blocks backfilled) =
  [2912; 2944; 2976; 3008; 3040; 3072; 3104; 3136; 3168] /\
  map Store.be_expires_at (blocks backfilled) =
  repeat (3 * 24 * Hour) 9.
Proof. vm_compute. auto. Qed.

(** A second back-fill finds every slot stored and asks for no block. *)
Example backfill_skips_present :
  upstreamCalls
    (snd (fetchHistoricalCheckpoints expireAfterTtl 0 (Some checkpointAA) backfilled))
  = upstreamCalls backfilled ++ [("upstream-1", ReqSpec); ("upstream-1", ReqGenesis)].
Proof. vm_compute. reflexivity. Qed.

Lemma slotsPerEpoch_upstream_or_32_witness :
  (fst (updateServingCheckpoint (Some checkpointAA) bundled) = Return tt <->
   3200 mod 32 = 0) /\
  historicalSlots 100 8 = [792; 784; 776; 768; 760; 752; 744; 736; 728].
Proof.
  destruct (slotsPerEpoch_upstream_or_32 expireAfterTtl 0 checkpointAA
              epoch100 upstream1 spec32 genesis0 blockAt bundled
              eq_refl eq_refl eq_refl eq_refl upstream1_serves)
    as (_ & _ & Halign & Hslots & _).
  split; [|exact Hslots].
  exact (Halign blockAA 0x55 [] 3200 eq_refl eq_refl eq_refl eq_refl).
Defined.

End ScenarioFacts.

Module GenesisRunFacts.

Import GenesisRun.

Example genesis_is_stored : holdsGenesis stored.
Proof. exists genesisBlock, 0x02, []. repeat split; reflexivity. Qed.

(** The checks read the block store at the majority root only: the slot-0
    entry and its state are read by none of them. *)
Example ticks_leave_genesis_unread :
  trace threeTicksLater =
  trace stored ++
  [Upstream "upstream-g" ReqFinality;
   Emit "finality_head_updated" (Some Scenario.checkpointAA);
   ReadBlockByRoot 0xAA;
   Upstream "upstream-g" ReqFinality; ReadBlockByRoot 0xAA;
   Upstream "upstream-g" ReqFinality; ReadBlockByRoot 0xAA] /\
  slotReads threeTicksLater = [0] /\
  slotReads stored = [0].
Proof. vm_compute. auto. Qed.

(** With the genesis bundle stored the genesis check is a no-op: no upstream
    call, nothing queued. *)
Example checkGenesis_stored_noop :
  fst (checkGenesis 0 stored) = Return tt /\
  upstreamCalls (snd (checkGenesis 0 stored)) = upstreamCalls stored /\
  bundleDownloader (snd (checkGenesis 0 stored)) = bundleDownloader stored.
Proof. vm_compute. auto. Qed.

(** Without it the check asks a ready node for "genesis" and queues its root. *)
Example checkGenesis_queues_root :
  fst (checkGenesis 0 started) = Return tt /\
  upstreamCalls (snd (checkGenesis 0 started)) =
  [("upstream-g", ReqBlock "genesis")] /\
  queue (bundleDownloader (snd (checkGenesis 0 started))) = [0x01].
Proof. vm_compute. auto. Qed.

Example checkGenesis_no_nodes_ready :
  fst (checkGenesis 0 (NewMajorityProvider [] 16 0)) = Fail "no nodes ready".
Proof. reflexivity. Qed.

(** The state of the bundle of epoch 100 is found through its block, by root
    and by slot; a slot without a block is "block not found". *)
Example GetBeaconState_runs :
  fst (GetBeaconStateByRoot 0xAA Scenario.bundled) = Return (Some []) /\
  fst (GetBeaconStateBySlot 3200 Scenario.bundled) = Return (Some []) /\
  fst (GetBeaconStateBySlot 3201 Scenario.bundled) = Fail "block not found" /\
  fst (GetBeaconStateByRoot 0xBB Scenario.bundled) = Fail "block not found".
Proof. vm_compute. auto. Qed.

(** A block off the epoch boundary is refused, with its slot in the error. *)
Example alignment_rejection :
  fst (updateServingCheckpoint (Some Scenario.checkpointAA)
         (set_states [{| Store.se_state_root := 0x55; Store.se_state := [];
                         Store.se_expires_at := 1000; Store.se_inserted_at := 0 |}]
            (set_blocks
               [{| Store.be_root := 0xAA; Store.be_slot := 3201;
                   Store.be_state_root := 0x55;
                   Store.be_block :=
                     {| block_Slot := Ok 3201; block_Root := Ok 0xAA;
                        block_StateRoot := Ok 0x55 |};
                   Store.be_expires_at := 1000; Store.be_inserted_at := 0 |}]
               Scenario.started)))
  = Fail "block slot is not aligned from an epoch boundary: 3201".
Proof. vm_compute. reflexivity. Qed.

End GenesisRunFacts.

(** * More of the provider *)

(** ** Frames for the fields and the trace *)

#[local] Instance grows_frame (P : Effect -> Prop) : Frame (grows P).
Proof.
  split; unfold grows.
  - intros m. exists []. split; [now rewrite app_nil_r | constructor].
  - intros m1 m2 m3 (es1 & H1 & P1) (es2 & H2 & P2). exists (es1 ++ es2).
    split; [now rewrite H2, H1, app_assoc | now apply Forall_app].
Qed.

#[local] Instance readsOnly_frame : Frame readsOnly.
Proof.
  split; unfold readsOnly.
  - intros m. exists []. split; [now rewrite records_nil | reflexivity].
  - intros m1 m2 m3 (es1 & -> & P1) (es2 & -> & P2). exists (es1 ++ es2).
    split.
    + unfold records. simpl. now rewrite app_assoc.
    + rewrite forallb_app, P1, P2. reflexivity.
Qed.

#[local] Instance sameStores_frame : Frame sameStores.
Proof.
  split; unfold sameStores.
  - intros m. repeat split; reflexivity.
  - intros m1 m2 m3 (A1 & A2 & A3 & A4 & A5) (B1 & B2 & B3 & B4 & B5).
    repeat split; congruence.
Qed.

#[local] Instance onlyBlocks_frame : Frame onlyBlocks.
Proof.
  split; unfold onlyBlocks.
  - intros m. repeat split; reflexivity.
  - intros m1 m2 m3 (A1 & A2 & A3 & A4 & A5 & A6) (B1 & B2 & B3 & B4 & B5 & B6).
    repeat split; congruence.
Qed.

#[local] Instance onlyQueue_frame : Frame onlyQueue.
Proof.
  split; unfold onlyQueue.
  - intros m. repeat split; reflexivity.
  - intros m1 m2 m3 (A1 & A2 & A3 & A4 & A5 & A6) (B1 & B2 & B3 & B4 & B5 & B6).
    repeat split; congruence.
Qed.

Lemma grows_effect (P : Effect -> Prop) (e : Effect) :
  P e -> preserves (grows P) (effect e).
Proof.
  intros He m. exists [e]. split; [reflexivity | now repeat constructor].
Qed.

Lemma grows_modify (P : Effect -> Prop) (f : Majority -> Majority) :
  (forall m, trace (f m) = trace m) -> preserves (grows P) (modify f).
Proof.
  intros Hf m. exists []. simpl. rewrite Hf, app_nil_r. split; [reflexivity|constructor].
Qed.

Lemma grows_weaken (P Q : Effect -> Prop) (m m' : Majority) :
  (forall e, P e -> Q e) -> grows P m m' -> grows Q m m'.
Proof.
  intros HPQ (es & Ht & HP). exists es. split; [exact Ht|].
  eapply Forall_impl; eauto.
Qed.

(** A leaf of a method body that writes none of the fields a frame names. *)
Ltac fields_leaf := intros ?m; repeat split; reflexivity.

(** A leaf for [grows]: an effect that is allowed, or an assignment. *)
Ltac grows_leaf :=
  first [ apply grows_effect; simpl; auto; fail
        | apply grows_modify; intros ?m; reflexivity ].

Ltac unfold_reads :=
  unfold blocks_GetByRoot, blocks_GetBySlot, blocks_GetByStateRoot,
    states_GetByStateRoot.

Lemma sameStores_collectFinality ns : preserves sameStores (collectFinality ns).
Proof. intros m. rewrite collectFinality_run. repeat split; reflexivity. Qed.

Lemma tickEffect_collectFinality ns :
  preserves (grows tickEffect) (collectFinality ns).
Proof.
  intros m. rewrite collectFinality_run. exists (finalityCalls ns).
  split; [reflexivity|]. unfold finalityCalls. apply Forall_forall.
  intros e He. apply in_map_iff in He as (n & <- & _). exact I.
Qed.

(** ** The finality check, in every outcome *)

Section TickAlways.

Variable CheckpointsMajority : list (option Finality) -> result (option Finality).

(** X1: in every outcome a finality check asks each ready node for its
    finality once, in the order of the pool, and makes no other upstream
    call. *)
Theorem checkFinality_upstream_calls (m : Majority) :
  upstreamCalls (snd (checkFinality CheckpointsMajority m)) =
  upstreamCalls m ++ map (fun n => (Name n, ReqFinality)) (Ready (nodes m)).
Proof.
  unfold checkFinality.
  rewrite (bind_Return (gets nodes) _ m m (nodes m) eq_refl).
  rewrite (bind_Return _ _ _ _ _ (collectFinality_run (Ready (nodes m)) m)).
  match goal with
  | |- upstreamCalls (snd (?c ?m0)) = _ =>
      assert (Hrest : preserves (fun a b => upstreamCalls b = upstreamCalls a) c)
  end.
  { assert (F : Frame (fun a b => upstreamCalls b = upstreamCalls a)).
    { split; [reflexivity | intros; congruence]. }
    assert (Heff : forall e, match e with Upstream _ _ => False | _ => True end ->
              preserves (fun a b => upstreamCalls b = upstreamCalls a) (effect e)).
    { intros e He m0. unfold effect, modify. simpl. rewrite upstreamCalls_record.
      destruct e; try contradiction; apply app_nil_r. }
    unfold updateServingCheckpoint, rootDiffers,
      publishFinalityCheckpointHeadUpdated.
    unfold_reads. frame_walk;
      first [ apply Heff; exact I | intros ?m; reflexivity ]. }
  rewrite Hrest, upstreamCalls_records. f_equal.
  unfold finalityCalls. clear Hrest.
  induction (Ready (nodes m)) as [|n l IH]; simpl; [reflexivity | now f_equal].
Qed.

(** X2: when the aggregator fails, the finality check returns its error and
    neither view, nor the published events, nor the stores or the queue have
    changed. *)
Theorem checkFinality_aggregation_error (e : error) (m : Majority) :
  CheckpointsMajority (reports (Ready (nodes m))) = Err e ->
  let r := checkFinality CheckpointsMajority m in
  fst r = Fail e /\
  head (snd r) = head m /\ currentBundle (snd r) = currentBundle m /\
  published (snd r) = published m /\
  blocks (snd r) = blocks m /\ states (snd r) = states m /\
  bundleDownloader (snd r) = bundleDownloader m.
Proof.
  intros HA. unfold checkFinality.
  rewrite (bind_Return (gets nodes) _ m m (nodes m) eq_refl).
  rewrite (bind_Return _ _ _ _ _ (collectFinality_run (Ready (nodes m)) m)).
  unfold bind, try, fail. rewrite HA. simpl.
  rewrite published_finalityCalls. repeat split; reflexivity.
Qed.

(** X3: in every outcome a finality check leaves the two stores, the
    downloader, the nodes and the clock as they were, and all it does to its
    collaborators is ask nodes for their finality, publish, read the stores by
    root and by state root, and hand an epoch to the metrics. *)
Theorem checkFinality_writes_views_only (m : Majority) :
  sameStores m (snd (checkFinality CheckpointsMajority m)) /\
  grows tickEffect m (snd (checkFinality CheckpointsMajority m)).
Proof.
  split.
  - revert m. change (preserves sameStores (checkFinality CheckpointsMajority)).
    unfold checkFinality, updateServingCheckpoint, rootDiffers,
      publishFinalityCheckpointHeadUpdated.
    unfold_reads. frame_walk;
      first [ apply sameStores_collectFinality | fields_leaf ].
  - revert m.
    change (preserves (grows tickEffect) (checkFinality CheckpointsMajority)).
    unfold checkFinality, updateServingCheckpoint, rootDiffers,
      publishFinalityCheckpointHeadUpdated.
    unfold_reads. frame_walk;
      first [ apply tickEffect_collectFinality | grows_leaf ].
Qed.

End TickAlways.

Section TickOutcomes.

Variable CheckpointsMajority : list (option Finality) -> result (option Finality).

(** X4: a finality check that returns a nil error had a majority with a
    finalized checkpoint, and leaves the head and the serving view both at
    that majority's root. *)
Theorem checkFinality_nil_views_agree (m : Majority) :
  fst (checkFinality CheckpointsMajority m) = Return tt ->
  exists maj mc,
    CheckpointsMajority (reports (Ready (nodes m))) = Ok (Some maj) /\
    Finalized maj = Some mc /\
    finalizedRoot (head (tick CheckpointsMajority m)) = Some (Root mc) /\
    finalizedRoot (currentBundle (tick CheckpointsMajority m)) = Some (Root mc).
Proof.
  intros Hok.
  destruct (CheckpointsMajority (reports (Ready (nodes m)))) as [[maj|]|e] eqn:HA.
  2,3: exfalso;
       apply (proj2 (checkFinality_no_majority CheckpointsMajority m
                       ltac:(intros; congruence))); exact Hok.
  destruct (Finalized maj) as [mc|] eqn:HM.
  2: exfalso;
     apply (proj2 (checkFinality_no_majority CheckpointsMajority m
                     ltac:(intros; congruence))); exact Hok.
  exists maj, mc. split; [reflexivity|]. split; [exact HM|].
  destruct (checkFinality_step CheckpointsMajority maj mc m HA HM)
    as (_ & _ & _ & _ & _ & Hh & _ & Hsame & Hupd).
  unfold tick. split.
  - rewrite Hh. destruct (rootChanged (head m) mc) eqn:E.
    + now apply finalizedRoot_some.
    + now apply rootChanged_false.
  - destruct (rootChanged (currentBundle m) mc) eqn:E.
    + destruct (Hupd eq_refl) as [_ Hcb]. rewrite Hcb, Hok.
      now apply finalizedRoot_some.
    + destruct (Hsame eq_refl) as [_ Hcb]. rewrite Hcb.
      now apply rootChanged_false.
Qed.

(** X5: a second finality check that meets the same majority publishes
    nothing and leaves the head alone, whether or not the serving update of
    the first succeeded: one change of root is published once. *)
Theorem checkFinality_publishes_root_once (maj : Finality) (mc : Checkpoint)
  (m : Majority) :
  CheckpointsMajority (reports (Ready (nodes m))) = Ok (Some maj) ->
  Finalized maj = Some mc ->
  let m1 := tick CheckpointsMajority m in
  let m2 := tick CheckpointsMajority m1 in
  finalizedRoot (head m1) = Some (Root mc) /\
  head m2 = head m1 /\
  published m2 = published m1 /\
  (List.length (published m1) <= S (List.length (published m)))%nat.
Proof.
  intros HA HM m1 m2.
  destruct (checkFinality_step CheckpointsMajority maj mc m HA HM)
    as (_ & _ & _ & Hn & _ & Hh & Hp & _).
  fold (tick CheckpointsMajority m) in Hn, Hh, Hp. fold m1 in Hn, Hh, Hp.
  assert (Hroot : finalizedRoot (head m1) = Some (Root mc)).
  { rewrite Hh. destruct (rootChanged (head m) mc) eqn:E.
    - now apply finalizedRoot_some.
    - now apply rootChanged_false. }
  assert (HA1 : CheckpointsMajority (reports (Ready (nodes m1))) = Ok (Some maj))
    by now rewrite Hn.
  destruct (checkFinality_step CheckpointsMajority maj mc m1 HA1 HM)
    as (_ & _ & _ & _ & _ & Hh2 & Hp2 & _).
  fold (tick CheckpointsMajority m1) in Hh2, Hp2. fold m2 in Hh2, Hp2.
  apply rootChanged_false in Hroot as Hsame. rewrite Hsame in Hh2, Hp2.
  rewrite app_nil_r in Hp2.
  repeat split; auto.
  rewrite Hp, length_app. destruct (rootChanged (head m) mc); simpl; lia.
Qed.

(** X6: when the aggregator hands back a majority without a finalized
    checkpoint (or a nil majority), the finality check panics on reading it
    and the serving view is untouched.  With a head that has a finalized
    checkpoint nothing was changed before the panic; with a head that has
    none, the head was already replaced and the event published. *)
Theorem checkFinality_unfinalized_majority (majority : option Finality)
  (m : Majority) :
  CheckpointsMajority (reports (Ready (nodes m))) = Ok majority ->
  finalizedRoot majority = None ->
  let r := checkFinality CheckpointsMajority m in
  fst r = Panic /\
  currentBundle (snd r) = currentBundle m /\
  (finalizedRoot (head m) <> None ->
   head (snd r) = head m /\ published (snd r) = published m) /\
  (finalizedRoot (head m) = None ->
   head (snd r) = majority /\ published (snd r) = published m ++ [majority]).
Proof.
  intros HA Hnone. unfold checkFinality.
  rewrite (bind_Return (gets nodes) _ m m (nodes m) eq_refl).
  rewrite (bind_Return _ _ _ _ _ (collectFinality_run (Ready (nodes m)) m)).
  unfold bind, try, ret, gets. rewrite HA.
  change (head (records (finalityCalls (Ready (nodes m))) m)) with (head m).
  assert (Hfin : forall m0, finalized majority m0 = (Panic, m0)).
  { intros m0. unfold finalized, deref, bind, ret, panic.
    destruct majority as [[[c|] j]|]; try discriminate; reflexivity. }
  unfold rootDiffers, publishFinalityCheckpointHeadUpdated, effect, modify,
    bind, ret.
  destruct (head m) as [[[hc|] hj]|] eqn:Hhead; simpl;
    rewrite ?Hfin; simpl; rewrite ?Hfin; simpl;
    rewrite ?published_record, ?published_finalityCalls;
    repeat split; try reflexivity; try congruence; intros; try congruence;
    change (published (set_head majority
                         (records (finalityCalls (Ready (nodes m))) m)))
      with (published (records (finalityCalls (Ready (nodes m))) m));
    now rewrite published_finalityCalls.
Qed.

End TickOutcomes.

(** ** The serving update, read by read *)

Lemma servingEpochs_app (m : Majority) (es : list Effect) :
  servingEpochs (records es m) =
  servingEpochs m ++
  flat_map (fun e => match e with ObserveServingEpoch x => [x] | _ => [] end) es.
Proof. unfold servingEpochs, records. simpl. apply flat_map_app. Qed.

(** X7: a serving update reads the block store once, by the finalized root,
    then, if it found a block that gives its state root, the state store once;
    it hands the checkpoint's epoch to the metrics exactly when it returns a
    nil error, and does nothing else to its collaborators. *)
Theorem updateServingCheckpoint_trace (C : Finality) (cp : Checkpoint)
  (m : Majority) :
  Finalized C = Some cp ->
  let r := updateServingCheckpoint (Some C) m in
  trace (snd r) =
  trace m ++
  ReadBlockByRoot (Root cp)
  :: match Store.GetByRoot (blocks m) (clock m) (Root cp) with
     | Ok (Some block) =>
         match block_StateRoot block with
         | Ok stateRoot =>
             ReadState stateRoot
             :: match fst r with
                | Return _ => [ObserveServingEpoch (Epoch cp)]
                | _ => []
                end
         | Err _ => []
         end
     | _ => []
     end /\
  servingEpochs (snd r) =
  servingEpochs m ++ match fst r with Return _ => [Epoch cp] | _ => [] end.
Proof.
  intros HC r. subst r.
  go_unfold. simpl. rewrite HC. simpl.
  assert (Hse : forall es,
    flat_map (fun e => match e with ObserveServingEpoch x => [x] | _ => [] end)
      (trace m ++ es) =
    servingEpochs m ++
    flat_map (fun e => match e with ObserveServingEpoch x => [x] | _ => [] end) es).
  { intros es. apply flat_map_app. }
  destruct (Store.GetByRoot (blocks m) (clock m) (Root cp)) as [[b|]|e]; simpl.
  2,3: split; [reflexivity|];
       unfold servingEpochs at 1; simpl; rewrite Hse; reflexivity.
  destruct (block_StateRoot b) as [sr|e]; simpl.
  2: split; [reflexivity|];
     unfold servingEpochs at 1; simpl; rewrite Hse; reflexivity.
  destruct (Store.StateGetByStateRoot (states m) (clock m) sr) as [[st|]|e];
    simpl.
  2,3: split; [now rewrite <- app_assoc|];
       unfold servingEpochs at 1; simpl; rewrite <- app_assoc, Hse; reflexivity.
  destruct (block_Slot b) as [s|e]; simpl.
  2: split; [now rewrite <- app_assoc|];
     unfold servingEpochs at 1; simpl; rewrite <- app_assoc, Hse; reflexivity.
  destruct (s mod slotsPerEpoch =? 0); simpl.
  - split; [now rewrite <- !app_assoc|].
    unfold servingEpochs at 1. simpl. rewrite <- !app_assoc, Hse. reflexivity.
  - split; [now rewrite <- app_assoc|].
    unfold servingEpochs at 1. simpl. rewrite <- app_assoc, Hse. reflexivity.
Qed.

(** ** The read side *)

Lemma readsOnly_read (e : Effect) :
  isStoreRead e = true -> preserves readsOnly (effect e).
Proof.
  intros He m. exists [e]. split; [reflexivity | simpl; now rewrite He].
Qed.

Ltac reads_walk :=
  unfold_reads; frame_walk; try (apply readsOnly_read; reflexivity).

(** X8: the read-side accessors change nothing but the trace, to which they
    add store reads only: no upstream is called, nothing is published and
    nothing is queued, whatever they return.  [Finality], [Healthy] and
    [Syncing] leave even the trace alone. *)
Theorem query_api_reads_only (m : Majority) (slot root stateRoot : Z) :
  readsOnly m (snd (GetBlockBySlot slot m)) /\
  readsOnly m (snd (GetBlockByRoot root m)) /\
  readsOnly m (snd (GetBlockByStateRoot stateRoot m)) /\
  readsOnly m (snd (GetBeaconStateBySlot slot m)) /\
  readsOnly m (snd (GetBeaconStateByStateRoot stateRoot m)) /\
  readsOnly m (snd (GetBeaconStateByRoot root m)) /\
  FinalityOf m = (Return (currentBundle m), m) /\
  snd (Majority_Healthy m) = m /\
  snd (Majority_Syncing m) = m.
Proof.
  assert (H1 : preserves readsOnly (GetBlockBySlot slot))
    by (unfold GetBlockBySlot, found; reads_walk).
  assert (H2 : preserves readsOnly (GetBlockByRoot root))
    by (unfold GetBlockByRoot, found; reads_walk).
  assert (H3 : preserves readsOnly (GetBlockByStateRoot stateRoot))
    by (unfold GetBlockByStateRoot, found; reads_walk).
  assert (H4 : preserves readsOnly (GetBeaconStateBySlot slot))
    by (unfold GetBeaconStateBySlot, GetBlockBySlot, found; reads_walk).
  assert (H5 : preserves readsOnly (GetBeaconStateByStateRoot stateRoot))
    by (unfold GetBeaconStateByStateRoot; reads_walk).
  assert (H6 : preserves readsOnly (GetBeaconStateByRoot root))
    by (unfold GetBeaconStateByRoot, GetBlockByRoot, found; reads_walk).
  repeat split; try (apply H1 || apply H2 || apply H3 || apply H4 || apply H5
                     || apply H6).
  - unfold Majority_Healthy, bind, gets, ret.
    destruct (_ =? _)%nat; reflexivity.
  - unfold Majority_Syncing, bind, gets, ret.
    destruct (_ =? _)%nat; reflexivity.
Qed.

(** ** The download subscriber *)

Lemma AddToQueue_then_exists (d d' : BundleDownloader) (root : Z) :
  AddToQueue d root = Ok d' -> ExistsInQueue d' root = true.
Proof.
  intros H. apply AddToQueue_enqueues in H. unfold ExistsInQueue.
  apply existsb_exists. exists root. split; [exact H | apply Z.eqb_refl].
Qed.

(** X9: [handleFinalityUpdated] returns what [AddToQueue] returns for the
    finalized root and writes nothing but the downloader; once it has returned
    a nil error, handing it the same checkpoint again changes nothing. *)
Theorem handleFinalityUpdated_queues_root (checkpoint : Finality)
  (cp : Checkpoint) (m : Majority) :
  Finalized checkpoint = Some cp ->
  let r := handleFinalityUpdated (Some checkpoint) m in
  onlyQueue m (snd r) /\
  trace (snd r) = trace m /\
  match AddToQueue (bundleDownloader m) (Root cp) with
  | Ok d' =>
      fst r = Return tt /\ bundleDownloader (snd r) = d' /\
      ExistsInQueue d' (Root cp) = true /\
      handleFinalityUpdated (Some checkpoint) (snd r) = (Return tt, snd r)
  | Err e => r = (Fail e, m)
  end.
Proof.
  intros HC r. subst r.
  unfold handleFinalityUpdated, finalized, deref, bind, gets, try, modify, ret,
    fail.
  rewrite HC. cbv beta iota.
  destruct (AddToQueue (bundleDownloader m) (Root cp)) as [d'|e] eqn:Hadd;
    cbv beta iota.
  - pose proof (AddToQueue_then_exists _ _ _ Hadd) as Hex.
    simpl. repeat split; auto.
    unfold AddToQueue. rewrite Hex. reflexivity.
  - simpl. repeat split; reflexivity.
Qed.

(** ** The back-fill, at its edges *)

Lemma RandomNode_nonempty (ns : Nodes) (pick : nat) :
  ns <> [] -> exists n, RandomNode ns pick = Ok n.
Proof.
  intros Hne. unfold RandomNode.
  destruct (nth_error ns (Nat.modulo pick (List.length ns))) as [n|] eqn:E;
    [eauto|].
  exfalso. apply nth_error_None in E.
  assert (List.length ns <> 0)%nat by (destruct ns; simpl; congruence).
  pose proof (Nat.mod_upper_bound pick (List.length ns) H). lia.
Qed.

Lemma RandomNode_empty (pick : nat) : exists e, RandomNode [] pick = Err e.
Proof. unfold RandomNode. destruct (Nat.modulo pick _); simpl; eauto. Qed.

Section BackfillEdges.

Variable CalculateBlockExpiration : Z -> Z -> Z -> Z -> Z -> Z -> Z.

Lemma grows_any_fetchHistoricalSlot (P : Effect -> Prop) upstream sp genesis
  currentSlot i :
  (forall s, P (ReadBlockBySlot s)) ->
  (forall r, P (Upstream (Name upstream) r)) ->
  preserves (grows P)
    (fetchHistoricalSlot CalculateBlockExpiration upstream sp genesis currentSlot i).
Proof.
  intros Hr Hu. unfold fetchHistoricalSlot. unfold_reads.
  frame_walk;
    first [ apply grows_effect; first [apply Hr | apply Hu]
          | apply grows_modify; intros ?m; reflexivity ].
Qed.

Lemma grows_any_fetchHistoricalLoop (P : Effect -> Prop) upstream sp genesis
  currentSlot n i :
  (forall s, P (ReadBlockBySlot s)) ->
  (forall r, P (Upstream (Name upstream) r)) ->
  preserves (grows P)
    (fetchHistoricalLoop CalculateBlockExpiration upstream sp genesis currentSlot n i).
Proof.
  intros Hr Hu. revert i. induction n as [|n IH]; intros i; simpl.
  - apply @preserves_ret; typeclasses eauto.
  - apply @preserves_bind;
      [typeclasses eauto | now apply grows_any_fetchHistoricalSlot | auto].
Qed.

Lemma onlyBlocks_fetchHistoricalLoop upstream sp genesis currentSlot n i :
  preserves onlyBlocks
    (fetchHistoricalLoop CalculateBlockExpiration upstream sp genesis currentSlot n i).
Proof.
  revert i. induction n as [|n IH]; intros i; simpl.
  - apply @preserves_ret; typeclasses eauto.
  - apply @preserves_bind; [typeclasses eauto | | auto].
    unfold fetchHistoricalSlot. unfold_reads. frame_walk; fields_leaf.
Qed.

(** X10: the back-fill gives up before it touches anything when no ready node
    is a data provider; otherwise it picks one of them and asks it for its
    spec first.  A failing [GetSpec] or [GetGenesis] of the picked node is
    returned as it is, after one and two upstream calls, with no block asked
    for. *)
Theorem fetchHistoricalCheckpoints_early_exits (pick : nat)
  (checkpoint : option Finality) (m : Majority) :
  let r := fetchHistoricalCheckpoints CalculateBlockExpiration pick checkpoint m in
  (DataProviders (Ready (nodes m)) = [] ->
   r = (Fail "no data provider node available", m)) /\
  (DataProviders (Ready (nodes m)) <> [] ->
   exists upstream es,
     In upstream (DataProviders (Ready (nodes m))) /\
     trace (snd r) = trace m ++ Upstream (Name upstream) ReqSpec :: es) /\
  (forall upstream e,
     RandomNode (DataProviders (Ready (nodes m))) pick = Ok upstream ->
     GetSpec (Beacon upstream) = Err e ->
     r = (Fail e, record (Upstream (Name upstream) ReqSpec) m)) /\
  (forall upstream sp e,
     RandomNode (DataProviders (Ready (nodes m))) pick = Ok upstream ->
     GetSpec (Beacon upstream) = Ok sp ->
     GetGenesis (Beacon upstream) = Err e ->
     r = (Fail e,
          record (Upstream (Name upstream) ReqGenesis)
            (record (Upstream (Name upstream) ReqSpec) m))).
Proof.
  intros r. subst r. unfold fetchHistoricalCheckpoints.
  rewrite (bind_Return (gets nodes) _ m m (nodes m) eq_refl).
  split; [|split; [|split]].
  - intros Hnone. rewrite Hnone. destruct (RandomNode_empty pick) as [e He].
    rewrite He. reflexivity.
  - intros Hsome.
    destruct (RandomNode_nonempty _ pick Hsome) as [upstream Hup].
    rewrite Hup. exists upstream.
    unfold bind at 1. unfold effect at 1, modify at 1. cbv beta iota.
    match goal with
    | |- exists es, _ /\ trace (snd (?c ?m0)) = _ =>
        assert (Hrest : preserves (grows (fun _ => True)) c)
    end.
    { frame_walk; try grows_leaf.
      apply grows_any_fetchHistoricalLoop; intros; exact I. }
    match goal with
    | |- exists es, _ /\ trace (snd (?c ?m0)) = _ =>
        destruct (Hrest m0) as (es & Ht & _)
    end.
    exists es. split; [eapply RandomNode_In; eauto|].
    rewrite Ht. simpl. now rewrite <- app_assoc.
  - intros upstream e Hup Hsp. rewrite Hup.
    unfold bind, effect, modify, try, fail. rewrite Hsp. reflexivity.
  - intros upstream sp e Hup Hsp Hgen. rewrite Hup.
    unfold bind, effect, modify, try, fail, ret. rewrite Hsp. cbv beta iota.
    rewrite Hgen. reflexivity.
Qed.

(** X11: in every outcome the back-fill leaves the state store, the
    downloader, the head, the serving view, the nodes and the clock as they
    were; all it does besides adding to the block store is read that store by
    slot and call the one node it picked. *)
Theorem fetchHistoricalCheckpoints_writes_blocks_only (pick : nat)
  (checkpoint : option Finality) (m : Majority) :
  let m' :=
    snd (fetchHistoricalCheckpoints CalculateBlockExpiration pick checkpoint m) in
  onlyBlocks m m' /\
  (forall upstream,
     RandomNode (DataProviders (Ready (nodes m))) pick = Ok upstream ->
     grows (backfillEffect upstream) m m') /\
  (forall e,
     RandomNode (DataProviders (Ready (nodes m))) pick = Err e -> m' = m).
Proof.
  intros m'. subst m'. split; [|split].
  - revert m.
    change (preserves onlyBlocks
              (fetchHistoricalCheckpoints CalculateBlockExpiration pick checkpoint)).
    unfold fetchHistoricalCheckpoints.
    frame_walk; try fields_leaf. apply onlyBlocks_fetchHistoricalLoop.
  - intros upstream Hup. unfold fetchHistoricalCheckpoints.
    rewrite (bind_Return (gets nodes) _ m m (nodes m) eq_refl), Hup.
    match goal with
    | |- grows _ m (snd (?c m)) =>
        assert (Hc : preserves (grows (backfillEffect upstream)) c)
    end.
    { frame_walk; try grows_leaf.
      apply grows_any_fetchHistoricalLoop; intros; simpl; auto. }
    apply Hc.
  - intros e Hup. unfold fetchHistoricalCheckpoints.
    rewrite (bind_Return (gets nodes) _ m m (nodes m) eq_refl), Hup.
    reflexivity.
Qed.

End BackfillEdges.

Section BackfillTurns.

Variable CalculateBlockExpiration : Z -> Z -> Z -> Z -> Z -> Z -> Z.

Lemma slotOfTurn_below_genesis (spe E i : Z) :
  0 < spe -> 9 * spe < 2 ^ 64 -> 0 <= E -> E < i <= 9 ->
  slotOfTurn (wrap64 (E * wrap64 spe)) spe i = 2 ^ 64 - (i - E) * spe.
Proof.
  intros Hspe Hfit HE Hi. unfold slotOfTurn, wrap64.
  rewrite (Z.mod_small spe) by nia.
  rewrite (Z.mod_small (E * spe)) by nia.
  rewrite (Z.mod_small (i * spe)) by nia.
  replace (E * spe - i * spe) with (2 ^ 64 - (i - E) * spe + (-1) * 2 ^ 64) by ring.
  rewrite Z.mod_add by lia. apply Z.mod_small. nia.
Qed.

(** What one turn leaves in the trace when it goes to the upstream. *)
Lemma fetchHistoricalSlot_asks upstream sp genesis currentSlot i m :
  let slot := slotOfTurn currentSlot (SlotsPerEpoch sp) i in
  let r := fetchHistoricalSlot CalculateBlockExpiration upstream sp genesis
             currentSlot i m in
  slot <> 0 ->
  (forall b, Store.GetBySlot (blocks m) (clock m) slot <> Ok (Some b)) ->
  trace (snd r) =
  trace m ++ [ReadBlockBySlot slot; Upstream (Name upstream) (ReqBlock (decimal slot))] /\
  (forall e, FetchBlock (Beacon upstream) (decimal slot) = Err e ->
             r = (Fail e,
                  record (Upstream (Name upstream) (ReqBlock (decimal slot)))
                    (record (ReadBlockBySlot slot) m))) /\
  (FetchBlock (Beacon upstream) (decimal slot) = Ok None ->
   fst r = Return tt /\ blocks (snd r) = blocks m).
Proof.
  intros slot r Hnz Habsent. subst r. unfold fetchHistoricalSlot.
  fold (slotOfTurn currentSlot (SlotsPerEpoch sp) i). fold slot. clearbody slot.
  apply Z.eqb_neq in Hnz. rewrite Hnz.
  unfold blocks_GetBySlot, effect, modify, bind, gets, try, ret, fail.
  rewrite !blocks_record, !clock_record.
  destruct (Store.GetBySlot (blocks m) (clock m) slot) as [[b|]|e0] eqn:Hb;
    [exfalso; eapply Habsent; eauto| |];
    (destruct (FetchBlock (Beacon upstream) (decimal slot)) as [[blk|]|e1];
     cbv beta iota;
     [ destruct (block_StateRoot blk) as [sr|e2]; cbv beta iota;
       [ rewrite !blocks_record, !clock_record;
         match goal with
         | |- context [Store.Add ?a ?b ?c ?d] => destruct (Store.Add a b c d)
         end; simpl
       | simpl ]
     | simpl
     | simpl ];
     rewrite <- ?app_assoc;
     (split; [reflexivity | split; [intros e'; try discriminate | try discriminate]]);
     try (intros [= <-]; reflexivity);
     try (intros _; split; reflexivity)).
Qed.

(** X12: below epoch 9 the subtraction wraps around.  For a finalized epoch
    [E] and a turn [i] with [E < i <= 9], the slot the turn works with is
    [2^64 - (i - E) * SlotsPerEpoch], not a slot before genesis: it is not 0,
    so unless the block store answers it the upstream is asked for that slot,
    and the upstream's error ends the back-fill. *)
Theorem fetchHistoricalSlot_wraps_below_genesis (upstream : Node) (sp : Spec)
  (genesis : Genesis) (E i : Z) (m : Majority) :
  0 < SlotsPerEpoch sp -> 9 * SlotsPerEpoch sp < 2 ^ 64 ->
  0 <= E -> E < i <= 9 ->
  let slot := 2 ^ 64 - (i - E) * SlotsPerEpoch sp in
  let r := fetchHistoricalSlot CalculateBlockExpiration upstream sp genesis
             (wrap64 (E * wrap64 (SlotsPerEpoch sp))) i m in
  2 ^ 64 - 9 * SlotsPerEpoch sp <= slot < 2 ^ 64 /\
  ((forall b, Store.GetBySlot (blocks m) (clock m) slot <> Ok (Some b)) ->
   upstreamCalls (snd r) =
   upstreamCalls m ++ [(Name upstream, ReqBlock (decimal slot))] /\
   (forall e, FetchBlock (Beacon upstream) (decimal slot) = Err e ->
              fst r = Fail e)).
Proof.
  intros Hspe Hfit HE Hi slot r.
  split; [subst slot; nia|].
  intros Habsent.
  pose proof (slotOfTurn_below_genesis (SlotsPerEpoch sp) E i Hspe Hfit HE Hi)
    as Hslot. fold slot in Hslot.
  assert (Hnz : slot <> 0) by (subst slot; nia).
  pose proof (fetchHistoricalSlot_asks upstream sp genesis
                (wrap64 (E * wrap64 (SlotsPerEpoch sp))) i m) as H.
  cbv zeta in H. rewrite Hslot in H. fold r in H.
  destruct (H Hnz Habsent) as (Ht & Herr & _).
  split.
  - unfold upstreamCalls at 1. rewrite Ht, flat_map_app. reflexivity.
  - intros e He. now rewrite (Herr e He).
Qed.

(** X13: a turn of the back-fill changes the block store only by a successful
    [Add] of the block the upstream served for the turn's slot, a block whose
    [StateRoot()] succeeded; a nil block, slot 0, a slot already answered, or
    any error leave the block store as it was. *)
Theorem fetchHistoricalSlot_stores_only_fetched (upstream : Node) (sp : Spec)
  (genesis : Genesis) (currentSlot i : Z) (m : Majority) :
  let slot := slotOfTurn currentSlot (SlotsPerEpoch sp) i in
  let r := fetchHistoricalSlot CalculateBlockExpiration upstream sp genesis
             currentSlot i m in
  blocks (snd r) = blocks m \/
  exists block stateRoot,
    slot <> 0 /\
    (forall b, Store.GetBySlot (blocks m) (clock m) slot <> Ok (Some b)) /\
    FetchBlock (Beacon upstream) (decimal slot) = Ok (Some block) /\
    block_StateRoot block = Ok stateRoot /\
    Store.Add (blocks m) (clock m) block
      (CalculateBlockExpiration (clock m) slot (SecondsPerSlot sp)
         (wrap64 (SlotsPerEpoch sp)) (GenesisTime genesis) (3 * 24 * Hour))
    = Ok (blocks (snd r)) /\
    fst r = Return tt.
Proof.
  intros slot r. subst r. unfold fetchHistoricalSlot.
  fold (slotOfTurn currentSlot (SlotsPerEpoch sp) i). fold slot. clearbody slot.
  destruct (slot =? 0) eqn:Hz; [left; reflexivity|].
  apply Z.eqb_neq in Hz.
  unfold blocks_GetBySlot, effect, modify, bind, gets, try, ret, fail.
  rewrite !blocks_record, !clock_record.
  destruct (Store.GetBySlot (blocks m) (clock m) slot) as [[b|]|e0] eqn:Hb;
    [left; reflexivity| |];
    (destruct (FetchBlock (Beacon upstream) (decimal slot)) as [[blk|]|e1] eqn:Hf;
     cbv beta iota; [|left; reflexivity|left; reflexivity];
     destruct (block_StateRoot blk) as [sr|e2] eqn:Hsr; cbv beta iota;
     [|left; reflexivity];
     rewrite !blocks_record, !clock_record;
     match goal with
     | |- context [Store.Add ?a ?b ?c ?d] =>
         destruct (Store.Add a b c d) as [store'|e3] eqn:Hadd
     end; [|left; reflexivity];
     right; exists blk, sr; simpl;
     repeat split; auto; intros b' Hb'; congruence).
Qed.

End BackfillTurns.

Section BackfillStops.

Variable CalculateBlockExpiration : Z -> Z -> Z -> Z -> Z -> Z -> Z.

(** A loop of [k + n] turns is [k] turns followed by [n] turns. *)
Lemma fetchHistoricalLoop_split upstream sp genesis currentSlot k n i m :
  fetchHistoricalLoop CalculateBlockExpiration upstream sp genesis currentSlot
    (k + n) i m =
  bind (fetchHistoricalLoop CalculateBlockExpiration upstream sp genesis
          currentSlot k i)
       (fun _ => fetchHistoricalLoop CalculateBlockExpiration upstream sp genesis
                   currentSlot n (i + Z.of_nat k)) m.
Proof.
  revert i m. induction k as [|k IH]; intros i m.
  - simpl. unfold bind, ret. now rewrite Z.add_0_r.
  - change (S k + n)%nat with (S (k + n)). simpl fetchHistoricalLoop.
    unfold bind at 1 2 3.
    destruct (fetchHistoricalSlot CalculateBlockExpiration upstream sp genesis
                currentSlot i m) as [[[]| |] m1]; try reflexivity.
    rewrite IH. unfold bind.
    replace (i + 1 + Z.of_nat k) with (i + Z.of_nat (S k)) by lia.
    reflexivity.
Qed.

Lemma fetchHistoricalLoop_S upstream sp genesis currentSlot n i m :
  fetchHistoricalLoop CalculateBlockExpiration upstream sp genesis currentSlot
    (S n) i m =
  bind (fetchHistoricalSlot CalculateBlockExpiration upstream sp genesis
          currentSlot i)
       (fun _ => fetchHistoricalLoop CalculateBlockExpiration upstream sp genesis
                   currentSlot n (i + 1)) m.
Proof. reflexivity. Qed.

(** X14: the back-fill stops at the first block the upstream fails to serve.
    When the first [k] turns went through and the upstream answers the slot of
    turn [k + 1] with an error, the handler returns that error; the blocks
    admitted by the first [k] turns stay in the block store and no later slot
    is asked for. *)
Theorem fetchHistoricalCheckpoints_stops_at_error (pick : nat)
  (checkpoint : Finality) (cp : Checkpoint) (upstream : Node) (sp : Spec)
  (genesis : Genesis) (blockOf : Z -> Block) (k : nat) (e : error)
  (m : Majority) :
  RandomNode (DataProviders (Ready (nodes m))) pick = Ok upstream ->
  GetSpec (Beacon upstream) = Ok sp ->
  GetGenesis (Beacon upstream) = Ok genesis ->
  Finalized checkpoint = Some cp ->
  (k < 9)%nat ->
  let currentSlot := wrap64 (Epoch cp * wrap64 (SlotsPerEpoch sp)) in
  let done := map (slotOfTurn currentSlot (SlotsPerEpoch sp)) (turns k 1) in
  let failing := slotOfTurn currentSlot (SlotsPerEpoch sp) (1 + Z.of_nat k) in
  let m1 :=
    backfill CalculateBlockExpiration upstream sp genesis blockOf done
      (record (Upstream (Name upstream) ReqGenesis)
         (record (Upstream (Name upstream) ReqSpec) m)) in
  (forall s, In s done -> s <> 0 -> serves upstream blockOf s) ->
  failing <> 0 ->
  (forall b, Store.GetBySlot (blocks m1) (clock m1) failing <> Ok (Some b)) ->
  FetchBlock (Beacon upstream) (decimal failing) = Err e ->
  fetchHistoricalCheckpoints CalculateBlockExpiration pick (Some checkpoint) m
  = (Fail e,
     record (Upstream (Name upstream) (ReqBlock (decimal failing)))
       (record (ReadBlockBySlot failing) m1)).
Proof.
  intros Hup Hsp Hgen Hcp Hk currentSlot done failing m1 Hserve Hnz Habsent Hfail.
  unfold fetchHistoricalCheckpoints, finalized, bind at 1, gets, effect, modify,
    deref, try, ret.
  rewrite Hup. unfold bind at 1. cbv beta iota.
  unfold bind at 1. rewrite Hsp. cbv beta iota.
  unfold bind at 1. cbv beta iota.
  unfold bind at 1. rewrite Hgen. cbv beta iota.
  unfold bind at 1. unfold bind at 1. cbv beta iota. rewrite Hcp. cbv beta iota.
  fold currentSlot.
  change (Z.to_nat (historicalDistance - 1)) with 9%nat.
  replace 9%nat with (k + S (8 - k))%nat by lia.
  generalize (8 - k)%nat as n0. intros n0.
  rewrite fetchHistoricalLoop_split. unfold bind at 1.
  rewrite (fetchHistoricalLoop_run CalculateBlockExpiration upstream sp genesis
             blockOf currentSlot k 1 _ Hserve).
  fold done. fold m1. rewrite fetchHistoricalLoop_S. unfold bind at 1.
  pose proof (fetchHistoricalSlot_asks CalculateBlockExpiration upstream sp
                genesis currentSlot (1 + Z.of_nat k) m1) as H.
  cbv zeta in H. fold failing in H.
  destruct (H Hnz Habsent) as (_ & Herr & _).
  rewrite (Herr e Hfail). reflexivity.
Qed.

End BackfillStops.

(** ** The genesis task *)

Lemma onlyQueue_checkGenesis (pick : nat) : preserves onlyQueue (checkGenesis pick).
Proof. unfold checkGenesis, genesisStored. unfold_reads. frame_walk; fields_leaf. Qed.

(** What the genesis check may do to its collaborators: read the stores and
    ask a node for the block "genesis". *)
Lemma genesisEffect_checkGenesis (pick : nat) :
  preserves
    (grows (fun e => isStoreRead e = true \/
                     exists n, e = Upstream n (ReqBlock "genesis")))
    (checkGenesis pick).
Proof.
  unfold checkGenesis, genesisStored. unfold_reads.
  frame_walk;
    first [ apply grows_effect; simpl; eauto; fail
          | apply grows_modify; intros ?m; reflexivity ].
Qed.

(** X15: the genesis check stores nothing itself: in every outcome both
    stores, both views, the nodes and the clock are as before; it reads the
    stores, asks at most for the block "genesis", and the downloader is either
    as before or the result of adding one root that was not queued. *)
Theorem checkGenesis_only_queues (pick : nat) (m : Majority) :
  let m' := snd (checkGenesis pick m) in
  onlyQueue m m' /\
  grows (fun e => isStoreRead e = true \/
                  exists n, e = Upstream n (ReqBlock "genesis")) m m' /\
  (bundleDownloader m' = bundleDownloader m \/
   exists root,
     ExistsInQueue (bundleDownloader m) root = false /\
     AddToQueue (bundleDownloader m) root = Ok (bundleDownloader m')).
Proof.
  intros m'. subst m'.
  split; [apply onlyQueue_checkGenesis|].
  split; [apply genesisEffect_checkGenesis|].
  destruct (genesisStored_run m) as (stored & es & Hrun & _ & _).
  unfold checkGenesis. rewrite (bind_Return _ _ _ _ _ Hrun).
  destruct stored; [left; reflexivity|].
  unfold bind, gets, effect, modify, try, deref, ret, fail, panic.
  change (nodes (records es m)) with (nodes m).
  destruct (List.length (Ready (nodes m)) =? 0)%nat; [left; reflexivity|].
  destruct (RandomNode (Ready (nodes m)) pick) as [node|e]; [|left; reflexivity].
  cbv beta iota.
  destruct (FetchBlock (Beacon node) "genesis") as [[gb|]|e]; cbv beta iota;
    try (left; reflexivity).
  destruct (block_Root gb) as [root|e]; cbv beta iota; [|left; reflexivity].
  change (bundleDownloader
            (record (Upstream (Name node) (ReqBlock "genesis")) (records es m)))
    with (bundleDownloader m).
  destruct (ExistsInQueue (bundleDownloader m) root) eqn:Hex;
    [left; reflexivity|].
  destruct (AddToQueue (bundleDownloader m) root) as [d'|e] eqn:Hadd;
    [|left; reflexivity].
  right. exists root. split; [exact Hex | exact Hadd].
Qed.

(** X16: [startGenesisLoop] never returns an error of [checkGenesis]: when
    its timer fires it runs the check once, leaves what the check leaves and
    returns nil whenever the check returned at all; when the context is
    cancelled first it returns an error and nothing was read or asked. *)
Theorem startGenesisLoop_swallows_errors (pick : nat) (m : Majority) :
  snd (startGenesisLoop true pick m) = snd (checkGenesis pick m) /\
  (fst (checkGenesis pick m) <> Panic ->
   fst (startGenesisLoop true pick m) = Return tt) /\
  (fst (checkGenesis pick m) = Panic ->
   fst (startGenesisLoop true pick m) = Panic) /\
  (exists e, startGenesisLoop false pick m = (Fail e, m)).
Proof.
  unfold startGenesisLoop.
  destruct (checkGenesis pick m) as [[[]| |] m']; simpl;
    (split; [reflexivity|]); (split; [intros; congruence|]);
    (split; [intros; congruence|]); eexists; reflexivity.
Qed.

(** ** The pool's status *)

(** X17: [Healthy] answers true exactly when some node is healthy and
    [Syncing] answers true exactly when every node is syncing, neither with an
    error; so an empty pool is unhealthy and syncing, and a pool with a ready
    node is healthy and not syncing. *)
Theorem pool_status (m : Majority) :
  (exists b, fst (Majority_Healthy m) = Return b /\
             (b = true <-> exists n, In n (nodes m) /\ Healthy n = true)) /\
  (exists b, fst (Majority_Syncing m) = Return b /\
             (b = true <-> forall n, In n (nodes m) -> Syncing n = true)) /\
  (nodes m = [] ->
   fst (Majority_Healthy m) = Return false /\
   fst (Majority_Syncing m) = Return true) /\
  (Ready (nodes m) <> [] ->
   fst (Majority_Healthy m) = Return true /\
   fst (Majority_Syncing m) = Return false).
Proof.
  assert (Hlen : forall (f : Node -> bool) ns,
            (List.length (filter f ns) =? 0)%nat = false <->
            exists n, In n ns /\ f n = true).
  { intros f ns. rewrite Nat.eqb_neq. split.
    - intros Hne. destruct (filter f ns) as [|n l] eqn:E; [now elim Hne|].
      exists n. apply filter_In. rewrite E. now left.
    - intros (n & Hin & Hf) Hz.
      assert (Hn : In n (filter f ns)) by (apply filter_In; auto).
      destruct (filter f ns); [destruct Hn | discriminate]. }
  unfold Majority_Healthy, Majority_Syncing, Nodes_Healthy, Nodes_NotSyncing,
    bind, gets, ret.
  split; [|split; [|split]].
  - destruct (List.length (filter Healthy (nodes m)) =? 0)%nat eqn:E; simpl.
    + exists false. split; [reflexivity|]. split; [discriminate|].
      intros H. apply Hlen in H. congruence.
    + exists true. split; [reflexivity|]. split; [|reflexivity].
      intros _. now apply Hlen.
  - destruct (List.length (filter (fun n => negb (Syncing n)) (nodes m)) =? 0)%nat
      eqn:E; simpl.
    + exists true. split; [reflexivity|]. split; [|reflexivity].
      intros _ n Hin. destruct (Syncing n) eqn:Hs; [reflexivity|].
      assert (H : (List.length (filter (fun n => negb (Syncing n)) (nodes m))
                   =? 0)%nat = false).
      { apply Hlen. exists n. rewrite Hs. auto. }
      congruence.
    + exists false. split; [reflexivity|]. split; [discriminate|].
      intros Hall. apply Hlen in E as (n & Hin & Hn).
      rewrite (Hall n Hin) in Hn. discriminate.
  - intros Hnil. rewrite Hnil. split; reflexivity.
  - intros Hready.
    destruct (Ready (nodes m)) as [|n l] eqn:E; [now elim Hready|].
    assert (Hin : In n (Ready (nodes m))) by (rewrite E; now left).
    apply filter_In in Hin as (Hin & Hn). apply andb_prop in Hn as (Hh & Hs).
    assert (H1 : (List.length (filter Healthy (nodes m)) =? 0)%nat = false)
      by (apply Hlen; eauto).
    assert (H2 : (List.length (filter (fun n => negb (Syncing n)) (nodes m))
                  =? 0)%nat = false) by (apply Hlen; eauto).
    rewrite H1, H2. split; reflexivity.
Qed.

(** ** A new provider *)

Lemma GetByRoot_empty (now root : Z) : Store.GetByRoot [] now root = Ok None.
Proof. reflexivity. Qed.

(** X18: the first finality check of a new provider that meets a majority
    always replaces the empty head and publishes the event, fails with
    "block not found" because the stores are still empty, and leaves the
    serving view the empty finality that [Finality] then returns. *)
Theorem first_check_of_new_provider
  (agg : list (option Finality) -> result (option Finality))
  (ns : Nodes) (limit : nat) (now : Z) (maj : Finality) (mc : Checkpoint) :
  agg (reports (Ready ns)) = Ok (Some maj) ->
  Finalized maj = Some mc ->
  let r := checkFinality agg (NewMajorityProvider ns limit now) in
  fst r = Fail "block not found" /\
  head (snd r) = Some maj /\
  published (snd r) = [Some maj] /\
  fst (FinalityOf (snd r)) =
  Return (Some {| Finalized := None; Justified := None |}).
Proof.
  intros HA HM r.
  destruct (checkFinality_step agg maj mc (NewMajorityProvider ns limit now)
              HA HM) as (_ & _ & _ & _ & _ & Hh & Hp & _ & Hupd).
  fold r in Hh, Hp, Hupd. simpl in Hh, Hp.
  destruct (Hupd eq_refl) as [Hr Hcb].
  pose proof (updateServingCheckpoint_run maj mc
                (NewMajorityProvider ns limit now) HM) as Hrun.
  simpl in Hrun. rewrite GetByRoot_empty in Hrun. destruct Hrun as [Hfail _].
  rewrite Hfail in Hr. rewrite Hr in Hcb.
  repeat split; auto.
  unfold FinalityOf, gets. simpl. now rewrite Hcb.
Qed.

(** ** Runs at the edges *)

Module EdgeFacts.

Import Scenario Edge.

(** At the start of the chain the back-fill asks for a slot just below 2^64. *)
Example backfill_at_epoch_0 :
  fetchHistoricalCheckpoints expireAfterTtl 0 (Some checkpoint0) atGenesis
  = (Fail "404",
     records [Upstream "upstream-0" ReqSpec; Upstream "upstream-0" ReqGenesis;
              ReadBlockBySlot 18446744073709551584;
              Upstream "upstream-0" (ReqBlock "18446744073709551584")]
       atGenesis).
Proof. vm_compute. reflexivity. Qed.

(** At epoch 3 the turns 1 and 2 ask for slots 64 and 32, turn 3 skips slot 0
    and turn 4 wraps. *)
Example slots_at_epoch_3 :
  historicalSlots 3 32 =
  [64; 32; 0; 18446744073709551584; 18446744073709551552; 18446744073709551520;
   18446744073709551488; 18446744073709551456; 18446744073709551424].
Proof. vm_compute. reflexivity. Qed.

(** A healthy pool that is not syncing may still have no ready node. *)
Example healthy_without_ready_node :
  let m := NewMajorityProvider [upstreamSyncing; upstreamDown] 16 0 in
  fst (Majority_Healthy m) = Return true /\
  fst (Majority_Syncing m) = Return false /\
  Ready (nodes m) = [] /\
  fst (checkGenesis 0 m) = Fail "no nodes ready".
Proof. vm_compute. auto. Qed.

Lemma checkFinality_aggregation_error_witness :
  fst (checkFinality Checkpoints.Majority noNodes) = Fail "no checkpoints" /\
  head (snd (checkFinality Checkpoints.Majority noNodes)) = head noNodes.
Proof.
  destruct (checkFinality_aggregation_error Checkpoints.Majority
              "no checkpoints" noNodes eq_refl) as (H1 & H2 & _).
  split; [exact H1 | exact H2].
Defined.

Lemma checkFinality_nil_views_agree_witness :
  fst (checkFinality Checkpoints.Majority bundled) = Return tt /\
  exists maj mc,
    Checkpoints.Majority (reports (Ready (nodes bundled))) = Ok (Some maj) /\
    Finalized maj = Some mc /\
    finalizedRoot (head (tick Checkpoints.Majority bundled)) = Some (Root mc) /\
    finalizedRoot (currentBundle (tick Checkpoints.Majority bundled))
    = Some (Root mc).
Proof.
  split; [reflexivity|].
  exact (checkFinality_nil_views_agree Checkpoints.Majority bundled eq_refl).
Defined.

Lemma checkFinality_publishes_root_once_witness :
  published (tick Checkpoints.Majority (tick Checkpoints.Majority started)) =
  published (tick Checkpoints.Majority started).
Proof.
  destruct (checkFinality_publishes_root_once Checkpoints.Majority checkpointAA
              {| Epoch := 100; Root := 0xAA |} started eq_refl eq_refl)
    as (_ & _ & H & _).
  exact H.
Defined.

Lemma checkFinality_unfinalized_majority_witness :
  fst (checkFinality firstReport withNil) = Panic /\
  head (snd (checkFinality firstReport withNil)) = Some unfinalized /\
  published (snd (checkFinality firstReport withNil)) = [Some unfinalized].
Proof.
  destruct (checkFinality_unfinalized_majority firstReport (Some unfinalized)
              withNil eq_refl eq_refl) as (H1 & _ & _ & H2).
  destruct (H2 eq_refl) as [Hh Hp].
  split; [exact H1|]. split; [exact Hh | exact Hp].
Defined.

Lemma updateServingCheckpoint_trace_witness :
  trace (snd (updateServingCheckpoint (Some checkpointAA) bundled)) =
  trace bundled ++
  [ReadBlockByRoot 0xAA; ReadState 0x55; ObserveServingEpoch 100].
Proof.
  destruct (updateServingCheckpoint_trace checkpointAA
              {| Epoch := 100; Root := 0xAA |} bundled eq_refl) as [H _].
  exact H.
Defined.

Lemma handleFinalityUpdated_queues_root_witness :
  fst (handleFinalityUpdated (Some checkpointAA) afterFirstTick) = Return tt /\
  queue (bundleDownloader
           (snd (handleFinalityUpdated (Some checkpointAA) afterFirstTick)))
  = [0xAA].
Proof.
  destruct (handleFinalityUpdated_queues_root checkpointAA
              {| Epoch := 100; Root := 0xAA |} afterFirstTick eq_refl)
    as (_ & _ & H).
  destruct H as (H1 & H2 & _). split; [exact H1|]. rewrite H2. reflexivity.
Defined.

Lemma fetchHistoricalSlot_wraps_below_genesis_witness :
  upstreamCalls
    (snd (fetchHistoricalSlot expireAfterTtl upstream0 spec32 genesis0
            (wrap64 (0 * wrap64 32)) 1 atGenesis))
  = [("upstream-0", ReqBlock "18446744073709551584")].
Proof.
  destruct (fetchHistoricalSlot_wraps_below_genesis expireAfterTtl upstream0
              spec32 genesis0 0 1 atGenesis
              ltac:(simpl; lia) ltac:(simpl; lia) ltac:(lia) ltac:(lia))
    as (_ & H).
  assert (Habsent : forall b,
            Store.GetBySlot (blocks atGenesis) (clock atGenesis)
              (2 ^ 64 - (1 - 0) * SlotsPerEpoch spec32) <> Ok (Some b)).
  { intros b Hb. vm_compute in Hb. discriminate. }
  exact (proj1 (H Habsent)).
Defined.

Lemma upstreamPartial_serves (s : Z) :
  In s (map (slotOfTurn (wrap64 (100 * wrap64 32)) 32) (turns 2 1)) ->
  s <> 0 -> serves upstreamPartial blockAt s.
Proof.
  intros Hin _.
  assert (Hadd : forall store now expires_at,
            exists store', Store.Add store now (blockAt s) expires_at = Ok store').
  { intros. eapply Add_indexable; reflexivity. }
  change (map (slotOfTurn (wrap64 (100 * wrap64 32)) 32) (turns 2 1))
    with [3168; 3136] in Hin.
  simpl in Hin.
  repeat (destruct Hin as [<-|Hin];
          [split; [vm_compute; reflexivity | split; [eexists; reflexivity | exact Hadd]]|]).
  destruct Hin.
Qed.

Lemma fetchHistoricalCheckpoints_stops_at_error_witness :
  fst (fetchHistoricalCheckpoints expireAfterTtl 0 (Some checkpointAA) partial)
  = Fail "404" /\
  map Store.be_slot
    (blocks (snd (fetchHistoricalCheckpoints expireAfterTtl 0
                    (Some checkpointAA) partial)))
  = [3136; 3168].
Proof.
  assert (Habsent : forall b,
    Store.GetBySlot
      (blocks
         (backfill expireAfterTtl upstreamPartial spec32 genesis0 blockAt
            (map (slotOfTurn (wrap64 (100 * wrap64 32)) 32) (turns 2 1))
            (record (Upstream (Name upstreamPartial) ReqGenesis)
               (record (Upstream (Name upstreamPartial) ReqSpec) partial))))
      (clock
         (backfill expireAfterTtl upstreamPartial spec32 genesis0 blockAt
            (map (slotOfTurn (wrap64 (100 * wrap64 32)) 32) (turns 2 1))
            (record (Upstream (Name upstreamPartial) ReqGenesis)
               (record (Upstream (Name upstreamPartial) ReqSpec) partial))))
      (slotOfTurn (wrap64 (100 * wrap64 32)) 32 (1 + Z.of_nat 2))
    <> Ok (Some b)).
  { intros b Hb. vm_compute in Hb. discriminate. }
  rewrite (fetchHistoricalCheckpoints_stops_at_error expireAfterTtl 0
             checkpointAA epoch100 upstreamPartial spec32 genesis0 blockAt 2
             "404" partial eq_refl eq_refl eq_refl eq_refl ltac:(lia)
             upstreamPartial_serves ltac:(vm_compute; discriminate)
             Habsent eq_refl).
  split; vm_compute; reflexivity.
Defined.

Lemma first_check_of_new_provider_witness :
  fst (checkFinality Checkpoints.Majority started) = Fail "block not found" /\
  published (tick Checkpoints.Majority started) = [Some checkpointAA].
Proof.
  destruct (first_check_of_new_provider Checkpoints.Majority [upstream1] 16 0
              checkpointAA {| Epoch := 100; Root := 0xAA |} eq_refl eq_refl)
    as (H1 & _ & H2 & _).
  split; [exact H1 | exact H2].
Defined.

End EdgeFacts.

(** * The serving view over a run *)

#[local] Instance keepsBundles_frame : Frame keepsBundles.
Proof.
  split; unfold keepsBundles.
  - intros m. auto.
  - intros m1 m2 m3 (A1 & A2 & A3) (B1 & B2 & B3).
    split; [congruence|]. split; auto.
Qed.






Section BackfillKeeps.

Variable CalculateBlockExpiration : Z -> Z -> Z -> Z -> Z -> Z -> Z.




End BackfillKeeps.

Section ServingRuns.

Variable CheckpointsMajority : list (option Finality) -> result (option Finality).
Variable CalculateBlockExpiration : Z -> Z -> Z -> Z -> Z -> Z -> Z.
Variable chain : Z -> Block.










End ServingRuns.

(** * The back-fill, slot by slot *)





Section BackfillStore.

Variable CalculateBlockExpiration : Z -> Z -> Z -> Z -> Z -> Z -> Z.
Variables (upstream : Node) (sp : Spec) (genesis : Genesis) (blockOf : Z -> Block).

Local Abbreviation run := (backfill CalculateBlockExpiration upstream sp genesis blockOf).
Local Abbreviation turn := (backfillSlot CalculateBlockExpiration upstream sp genesis blockOf).
Local Abbreviation expiry now s :=
  (CalculateBlockExpiration now s (SecondsPerSlot sp) (wrap64 (SlotsPerEpoch sp))
     (GenesisTime genesis) (3 * 24 * Hour)).





Lemma backfillSlot_zero (m : Majority) : turn m 0 = m.
Proof. reflexivity. Qed.








End BackfillStore.


(** ** Runs over one chain, and the back-fill early and late *)

Module RunFacts.

Import Scenario Edge.


(** After the expiry the entries of the bundle are still in the stores, none
    of them live, and the serving view is what it was. *)
Example expired_entries :
  currentBundle expired = Some checkpointAA /\
  map Store.be_root (blocks expired) = [0xAA] /\
  map Store.se_state_root (states expired) = [0x55] /\
  map Store.be_expires_at (blocks expired) = [1000] /\
  clock expired = 1000 /\
  ~ liveBlock expired 0xAA.
Proof.
  repeat split; try reflexivity.
  intros (e & Hin & _ & Hl). vm_compute in Hin. destruct Hin as [<-|[]].
  vm_compute in Hl. discriminate.
Qed.




(** The store after that back-fill: the nine blocks, each to expire
    [(s + 32) * 12] after genesis, which is before three days have passed. *)
Example backfill_stores_with_expiry :
  let m' :=
    snd (fetchHistoricalCheckpoints (Expire.CalculateBlockExpiration 32) 0
           (Some checkpointAA) afterFirstTick) in
  map Store.be_block (blocks m') =
  map blockAt [2912; 2944; 2976; 3008; 3040; 3072; 3104; 3136; 3168] /\
  map Store.be_expires_at (blocks m') =
  map (fun s => (s + 32) * 12)
    [2912; 2944; 2976; 3008; 3040; 3072; 3104; 3136; 3168] /\
  forall s, In s (specSlots 100 32 9) ->
            Store.GetBySlot (blocks m') (clock m') s = Ok (Some (blockAt s)).
Proof.
  split; [vm_compute; reflexivity|]. split; [vm_compute; reflexivity|].
  intros s Hin.
  change (specSlots 100 32 9)
    with [3168; 3136; 3104; 3072; 3040; 3008; 2976; 2944; 2912] in Hin.
  simpl in Hin.
  repeat (destruct Hin as [<-|Hin]; [vm_compute; reflexivity|]).
  destruct Hin.
Qed.

(** Below epoch 9 the turns that do not wrap still do their work: at epoch 3
    the blocks of slots 64 and 32 are stored before the run ends. *)
Example backfill_at_epoch_3 :
  let r := fetchHistoricalCheckpoints expireAfterTtl 0 (Some checkpoint3) started in
  specSlots 3 32 (Z.to_nat (Z.min 9 3)) = [64; 32; 0] /\
  map Store.be_block (blocks (snd r)) = [blockAt 32; blockAt 64] /\
  snd r =
  record (Upstream "upstream-1" (ReqBlock "18446744073709551584"))
    (record (ReadBlockBySlot 18446744073709551584)
       (backfill expireAfterTtl upstream1 spec32 genesis0 blockAt [64; 32; 0]
          (record (Upstream "upstream-1" ReqGenesis)
             (record (Upstream "upstream-1" ReqSpec) started)))).
Proof. vm_compute. auto. Qed.


End RunFacts.
